(** * The DeepL auto-translation script ([.github/scripts/translate.py])

    A shallow embedding of the script and the properties of its catalogue
    flattening, change detection, translation adapter, merge loop and
    orchestration.

    Conventions of the embedding.
    - A Python [str] is a [string] holding its UTF-8 encoding, one [ascii]
      per byte.  [split('.')], [startswith], the literal parts of the regular
      expressions and [hashlib.md5(s.encode('utf-8'))] act on those bytes
      directly; the whitespace tests of [str.strip] and of [\s] recognise the
      encodings of the code points CPython classifies as whitespace.
    - A Python [dict] is an insertion-ordered association list whose keys are
      kept unique by [dict_set]; iteration follows the list order.
    - A catalogue value is a string leaf or a nested object ([json]), as in
      the message files the script is written for; on a string leaf
      [str(value)] is the value itself.  A JSON file either parses to an
      object of such values or does not parse.
    - Files, the console, the translation API and process exit are explicit
      in a [World] threaded through a result-and-state monad; an exception
      nobody catches ends the process with status 1. *)

From Stdlib Require Import ZArith Ascii String List Lia Bool.
From stdpp Require Import base option list strings gmap pretty.
Import ListNotations.

Set Warnings "-register-all".

Local Open Scope Z_scope.

(** ** Bytes and strings *)

Definition byte_of (c : ascii) : Z := Z.of_N (Ascii.N_of_ascii c).

Definition ascii_of_byte (b : Z) : ascii := Ascii.ascii_of_N (Z.to_N b).

Fixpoint bytes_of_string (s : string) : list Z :=
  match s with
  | EmptyString => []
  | String c s' => byte_of c :: bytes_of_string s'
  end.

Fixpoint string_of_bytes (bs : list Z) : string :=
  match bs with
  | [] => EmptyString
  | b :: bs' => String (ascii_of_byte b) (string_of_bytes bs')
  end.

(** [s[:n]] *)
Fixpoint str_take (n : nat) (s : string) : string :=
  match n, s with
  | S n', String c s' => String c (str_take n' s')
  | _, _ => EmptyString
  end.

(** ** MD5 (RFC 1321), as computed by [hashlib.md5] *)

Module MD5.

Definition mask32 (x : Z) : Z := Z.land x 0xFFFFFFFF.

Definition not32 (x : Z) : Z := Z.lxor x 0xFFFFFFFF.

Definition rotl32 (x c : Z) : Z :=
  mask32 (Z.lor (Z.shiftl x c) (Z.shiftr x (32 - c))).

Definition shifts : list Z :=
  [7; 12; 17; 22; 7; 12; 17; 22; 7; 12; 17; 22; 7; 12; 17; 22;
   5; 9; 14; 20; 5; 9; 14; 20; 5; 9; 14; 20; 5; 9; 14; 20;
   4; 11; 16; 23; 4; 11; 16; 23; 4; 11; 16; 23; 4; 11; 16; 23;
   6; 10; 15; 21; 6; 10; 15; 21; 6; 10; 15; 21; 6; 10; 15; 21].

Definition K : list Z :=
  [0xd76aa478; 0xe8c7b756; 0x242070db; 0xc1bdceee;
   0xf57c0faf; 0x4787c62a; 0xa8304613; 0xfd469501;
   0x698098d8; 0x8b44f7af; 0xffff5bb1; 0x895cd7be;
   0x6b901122; 0xfd987193; 0xa679438e; 0x49b40821;
   0xf61e2562; 0xc040b340; 0x265e5a51; 0xe9b6c7aa;
   0xd62f105d; 0x02441453; 0xd8a1e681; 0xe7d3fbc8;
   0x21e1cde6; 0xc33707d6; 0xf4d50d87; 0x455a14ed;
   0xa9e3e905; 0xfcefa3f8; 0x676f02d9; 0x8d2a4c8a;
   0xfffa3942; 0x8771f681; 0x6d9d6122; 0xfde5380c;
   0xa4beea44; 0x4bdecfa9; 0xf6bb4b60; 0xbebfbc70;
   0x289b7ec6; 0xeaa127fa; 0xd4ef3085; 0x04881d05;
   0xd9d4d039; 0xe6db99e5; 0x1fa27cf8; 0xc4ac5665;
   0xf4292244; 0x432aff97; 0xab9423a7; 0xfc93a039;
   0x655b59c3; 0x8f0ccc92; 0xffeff47d; 0x85845dd1;
   0x6fa87e4f; 0xfe2ce6e0; 0xa3014314; 0x4e0811a1;
   0xf7537e82; 0xbd3af235; 0x2ad7d2bb; 0xeb86d391].

(** The four chaining words A, B, C, D. *)
Record state := State { sA : Z; sB : Z; sC : Z; sD : Z }.

Definition init : state :=
  State 0x67452301 0xefcdab89 0x98badcfe 0x10325476.

(** Little-endian bytes of a 32-bit word, and back. *)
Definition le_bytes (w : Z) : list Z :=
  [Z.land w 255; Z.land (Z.shiftr w 8) 255;
   Z.land (Z.shiftr w 16) 255; Z.land (Z.shiftr w 24) 255].

Fixpoint le_words (bs : list Z) (n : nat) : list Z :=
  match n with
  | O => []
  | S n' =>
      match bs with
      | b0 :: b1 :: b2 :: b3 :: rest =>
          (b0 + Z.shiftl b1 8 + Z.shiftl b2 16 + Z.shiftl b3 24)
            :: le_words rest n'
      | _ => []
      end
  end.

(** One of the 64 operations on a block of sixteen words [M]. *)
Definition step (M : list Z) (st : state) (i : nat) : state :=
  let '(State A B C D) := st in
  let iz := Z.of_nat i in
  let '(F, g) :=
    if iz <? 16 then (Z.lor (Z.land B C) (Z.land (not32 B) D), iz)
    else if iz <? 32 then
      (Z.lor (Z.land D B) (Z.land (not32 D) C), (5 * iz + 1) mod 16)
    else if iz <? 48 then (Z.lxor (Z.lxor B C) D, (3 * iz + 5) mod 16)
    else (Z.lxor C (Z.lor B (not32 D)), (7 * iz) mod 16) in
  let F' := mask32 (F + A + nth i K 0 + nth (Z.to_nat g) M 0) in
  State D (mask32 (B + rotl32 F' (nth i shifts 0))) B C.

Definition compress (block : list Z) (st : state) : state :=
  let M := le_words block 16 in
  let st' := fold_left (step M) (seq 0 64) st in
  State (mask32 (sA st + sA st')) (mask32 (sB st + sB st'))
        (mask32 (sC st + sC st')) (mask32 (sD st + sD st')).

(** Padding: a 1 bit, zeros up to 56 mod 64, the bit length on 64 bits. *)
Definition pad (msg : list Z) : list Z :=
  let len := Z.of_nat (length msg) in
  let zeros := Z.to_nat ((55 - len) mod 64) in
  let bits := 8 * len in
  msg ++ [128] ++ repeat 0 zeros
      ++ le_bytes (Z.land bits 0xFFFFFFFF)
      ++ le_bytes (Z.land (Z.shiftr bits 32) 0xFFFFFFFF).

Fixpoint blocks (n : nat) (bs : list Z) (st : state) : state :=
  match n with
  | O => st
  | S n' => blocks n' (skipn 64 bs) (compress (firstn 64 bs) st)
  end.

Definition digest_state (msg : list Z) : state :=
  let p := pad msg in
  blocks (Nat.div (length p) 64) p init.

Definition hex_digit (d : Z) : ascii :=
  if d <? 10 then ascii_of_byte (48 + d) else ascii_of_byte (87 + d).

Definition hex_byte (b : Z) : string :=
  String (hex_digit (Z.shiftr b 4)) (String (hex_digit (Z.land b 15)) EmptyString).

Definition hex_word (w : Z) : string :=
  match le_bytes w with
  | [b0; b1; b2; b3] =>
      hex_byte b0 +:+ hex_byte b1 +:+ hex_byte b2 +:+ hex_byte b3
  | _ => EmptyString
  end.

Definition hexdigest (msg : list Z) : string :=
  let st := digest_state msg in
  hex_word (sA st) +:+ hex_word (sB st) +:+ hex_word (sC st) +:+ hex_word (sD st).

End MD5.

(** [get_hash]: the first eight hex digits of the MD5 of the UTF-8 bytes. *)
Definition get_hash (text : string) : string :=
  str_take 8 (MD5.hexdigest (bytes_of_string text)).

(** ** Python dictionaries as insertion-ordered association lists *)

Abbreviation dict V := (list (string * V)).

Section Dict.
Context {V : Type}.

(** [d.get(k)] *)
Fixpoint dict_get (k : string) (d : dict V) : option V :=
  match d with
  | [] => None
  | (k', v) :: d' => if decide (k' = k) then Some v else dict_get k d'
  end.

(** [d[k] = v]: an existing key keeps its position, a new key goes last. *)
Fixpoint dict_set (k : string) (v : V) (d : dict V) : dict V :=
  match d with
  | [] => [(k, v)]
  | (k', v') :: d' =>
      if decide (k' = k) then (k', v) :: d' else (k', v') :: dict_set k v d'
  end.

(** [d.update(other)] *)
Definition dict_update (d other : dict V) : dict V :=
  fold_left (fun acc kv => dict_set kv.1 kv.2 acc) other d.

Definition dict_keys (d : dict V) : list string := d.*1.
End Dict.

(** ** Catalogue values *)

Inductive json : Type :=
| JStr (s : string)
| JObj (d : list (string * json)).

(** [path.split('.')]: never empty; the empty string gives one empty part. *)
Fixpoint split_dot (s : string) : list string :=
  match s with
  | EmptyString => [EmptyString]
  | String c s' =>
      if decide (c = "."%char) then EmptyString :: split_dot s'
      else match split_dot s' with
           | [] => [String c EmptyString]
           | part :: parts => String c part :: parts
           end
  end.

(** ** [get_nested_value] *)

(** The loop over [keys]: descend while the current value is a dictionary
    holding the key, [None] otherwise. *)
Fixpoint descend (keys : list string) (current : json) : option json :=
  match keys with
  | [] => Some current
  | key :: keys' =>
      match current with
      | JObj d =>
          match dict_get key d with
          | Some v => descend keys' v
          | None => None
          end
      | JStr _ => None
      end
  end.

Definition get_nested_value (obj : dict json) (path : string) : option json :=
  descend (split_dot path) (JObj obj).

(** ** [collect_all_keys] *)

(** [f"{prefix}.{key}" if prefix else key] *)
Definition child_path (prefix key : string) : string :=
  if decide (prefix = EmptyString) then key else prefix +:+ "." +:+ key.

(** The body of the loop for one [(key, value)] item whose path is
    [current_path]: a dictionary is flattened recursively and merged into
    [result] with [update], a leaf is stored at its path. *)
Fixpoint collect_value (value : json) (current_path : string)
    (result : dict string) : dict string :=
  match value with
  | JObj data =>
      dict_update result
        (fold_left
           (fun r kv => collect_value kv.2 (child_path current_path kv.1) r)
           data [])
  | JStr s => dict_set current_path s result
  end.

Definition collect_all_keys (data : dict json) (prefix : string) : dict string :=
  fold_left
    (fun r kv => collect_value kv.2 (child_path prefix kv.1) r) data [].

(** ** The merge loop of [main] (building the nested structure) *)

(** [parts] are walked from [current]; every part but the last selects the
    child dictionary, created when absent and replaced by an empty one when
    it is not a dictionary; the last part receives [translated]. *)
Fixpoint set_path (parts : list string) (translated : string)
    (current : dict json) : dict json :=
  match parts with
  | [] => current
  | [last] => dict_set last (JStr translated) current
  | part :: rest =>
      let child :=
        match dict_get part current with
        | Some (JObj d) => d
        | _ => []
        end in
      dict_set part (JObj (set_path rest translated child)) current
  end.

Definition merge_key (full_path translated : string) (target_data : dict json)
    : dict json :=
  set_path (split_dot full_path) translated target_data.

(** ** Whitespace, [strip], [startswith], [endswith] *)

(** The one-byte whitespace characters: U+0009..U+000D, U+001C..U+0020. *)
Definition space1 (c : ascii) : bool :=
  let b := byte_of c in
  ((9 <=? b) && (b <=? 13)) || ((28 <=? b) && (b <=? 32)).

(** U+0085 and U+00A0. *)
Definition space2 (c1 c2 : ascii) : bool :=
  (byte_of c1 =? 0xC2) && ((byte_of c2 =? 0x85) || (byte_of c2 =? 0xA0)).

(** U+1680, U+2000..U+200A, U+2028, U+2029, U+202F, U+205F, U+3000. *)
Definition space3 (c1 c2 c3 : ascii) : bool :=
  let b1 := byte_of c1 in
  let b2 := byte_of c2 in
  let b3 := byte_of c3 in
  ((b1 =? 0xE1) && (b2 =? 0x9A) && (b3 =? 0x80))
  || ((b1 =? 0xE2) && (b2 =? 0x80)
      && (((0x80 <=? b3) && (b3 <=? 0x8A))
          || (b3 =? 0xA8) || (b3 =? 0xA9) || (b3 =? 0xAF)))
  || ((b1 =? 0xE2) && (b2 =? 0x81) && (b3 =? 0x9F))
  || ((b1 =? 0xE3) && (b2 =? 0x80) && (b3 =? 0x80)).

(** [s.lstrip()], which is also what a greedy [\s*] consumes. *)
Fixpoint lstrip (s : string) : string :=
  match s with
  | String c1 s1 =>
      if space1 c1 then lstrip s1
      else match s1 with
           | String c2 s2 =>
               if space2 c1 c2 then lstrip s2
               else match s2 with
                    | String c3 s3 => if space3 c1 c2 c3 then lstrip s3 else s
                    | EmptyString => s
                    end
           | EmptyString => s
           end
  | EmptyString => s
  end.

(** [s.rstrip()]: a suffix made of whitespace only is dropped. *)
Fixpoint rstrip (s : string) : string :=
  match s with
  | String c s' =>
      if decide (lstrip s = EmptyString) then EmptyString
      else String c (rstrip s')
  | EmptyString => EmptyString
  end.

Definition strip (s : string) : string := rstrip (lstrip s).

(** [s.startswith(p)] gives the rest of [s] when it holds. *)
Fixpoint strip_prefix (p s : string) : option string :=
  match p with
  | EmptyString => Some s
  | String a p' =>
      match s with
      | String b s' => if decide (a = b) then strip_prefix p' s' else None
      | EmptyString => None
      end
  end.

Definition startswith (s p : string) : bool :=
  match strip_prefix p s with Some _ => true | None => false end.

(** [s.endswith(p)]: some suffix of [s] is [p]. *)
Fixpoint endswith (s p : string) : bool :=
  if decide (s = p) then true
  else match s with
       | String _ s' => endswith s' p
       | EmptyString => false
       end.

(** Truth value of a string, and of an optional string ([None] is false). *)
Definition truthy (s : string) : bool :=
  if decide (s = EmptyString) then false else true.

Definition truthy_opt (o : option string) : bool :=
  match o with Some s => truthy s | None => false end.

(** [sep.join(parts)] *)
Fixpoint join (sep : string) (parts : list string) : string :=
  match parts with
  | [] => EmptyString
  | [p] => p
  | p :: rest => p +:+ sep +:+ join sep rest
  end.

(** [needle in s] *)
Fixpoint contains (needle s : string) : bool :=
  if startswith s needle then true
  else match s with
       | String _ s' => contains needle s'
       | EmptyString => false
       end.

Definition lower_az (c : ascii) : bool :=
  (97 <=? byte_of c) && (byte_of c <=? 122).

(** [s.upper()] on the ASCII letters; the script applies it to a locale
    code, two letters of [a-z], or to the literal fallback. *)
Fixpoint upper (s : string) : string :=
  match s with
  | String c s' =>
      String (if lower_az c then ascii_of_byte (byte_of c - 32) else c) (upper s')
  | EmptyString => EmptyString
  end.

(** ** The regular expressions of the routing reader *)

(** The longest prefix without a closing bracket, and what follows: [[^\]]*]. *)
Fixpoint span_not_rbracket (s : string) : string * string :=
  match s with
  | String c s' =>
      if decide (c = "]"%char) then (EmptyString, s)
      else let '(body, rest) := span_not_rbracket s' in (String c body, rest)
  | EmptyString => (EmptyString, EmptyString)
  end.

(** [locales\s*:\s*\[([^\]]+)\]] anchored at the start of [s]; the result is
    group 1.  Every greedy repetition is followed by a character outside its
    class, so no backtracking can find another match. *)
Definition match_locales_at (s : string) : option string :=
  s1 ← strip_prefix "locales" s;
  s2 ← strip_prefix ":" (lstrip s1);
  s3 ← strip_prefix "[" (lstrip s2);
  let '(body, rest) := span_not_rbracket s3 in
  if truthy body && startswith rest "]" then Some body else None.

(** [re.search]: the leftmost position where the pattern matches. *)
Fixpoint search_locales (s : string) : option string :=
  match match_locales_at s with
  | Some g => Some g
  | None =>
      match s with
      | String _ s' => search_locales s'
      | EmptyString => None
      end
  end.

(** [re.findall(r"'([a-z]{2})'", s)]: non-overlapping matches, left to
    right. *)
Fixpoint findall_codes (s : string) : list string :=
  match s with
  | String q1 s1 =>
      match s1 with
      | String a (String b (String q2 rest)) =>
          if bool_decide (q1 = "'"%char) && lower_az a && lower_az b
             && bool_decide (q2 = "'"%char)
          then String a (String b EmptyString) :: findall_codes rest
          else findall_codes s1
      | _ => findall_codes s1
      end
  | EmptyString => []
  end.

(** [defaultLocale\s*:\s*'([a-z]{2})'] anchored at the start of [s]. *)
Definition match_default_at (s : string) : option string :=
  s1 ← strip_prefix "defaultLocale" s;
  s2 ← strip_prefix ":" (lstrip s1);
  s3 ← strip_prefix "'" (lstrip s2);
  match s3 with
  | String a (String b (String q _)) =>
      if lower_az a && lower_az b && bool_decide (q = "'"%char)
      then Some (String a (String b EmptyString)) else None
  | _ => None
  end.

Fixpoint search_default (s : string) : option string :=
  match match_default_at s with
  | Some g => Some g
  | None =>
      match s with
      | String _ s' => search_default s'
      | EmptyString => None
      end
  end.

(** ** The world the script runs in *)

(** A JSON file of [src/messages]: a document [json.load] parses to an
    object, or content it rejects. *)
Inductive json_file : Type :=
| Parsed (data : dict json)
| Malformed.

(** The keyword arguments [params] passed to [deepl_client.translate_text]. *)
Record Request : Type := {
  text : string;
  target_lang : string;
  preserve_formatting : bool;
  tag_handling : string;
  source_lang : option string
}.

Inductive ApiResult : Type :=
| TextResult (translated : string)
| DeepLException (e : string)
| Exception (e : string).

(** [deepl.DeepLClient(auth_key, server_url=...)] *)
Record DeepLClient : Type := {
  auth_key : string;
  server_url : option string
}.

(** What the process is started with: whether [import deepl] succeeds, the
    environment variable, and the behaviour of the translation service,
    which may depend on the calls made so far. *)
Record Env : Type := {
  deepl_installed : bool;
  DEEPL_API_KEY : option string;
  deepl_service : DeepLClient -> list Request -> Request -> ApiResult
}.

(** [routing_ts] is [src/i18n/routing.ts]; [messages] holds the files of
    [src/messages] by name; [api_calls] and [opened_for_write] record the
    requests sent and the names opened with mode ["w"], oldest first. *)
Record World : Type := {
  routing_ts : option string;
  messages : gmap string json_file;
  api_calls : list Request;
  stdout : string;
  opened_for_write : list string
}.

Definition HASHES_FILE : string := ".translation_hashes.json".

(** [f"{locale}.json"], resolved against [LOCALES_DIR]. *)
Definition locale_json (locale : string) : string := locale +:+ ".json".

Definition DEEPL_LANG_CODES : dict string :=
  [("en", "EN-US"); ("ru", "RU"); ("es", "ES"); ("fr", "FR"); ("it", "IT");
   ("pt", "PT-BR"); ("nl", "NL"); ("pl", "PL"); ("uk", "UK"); ("ja", "JA");
   ("zh", "ZH")].

(** ** Results, exits and exceptions *)

Inductive Exn : Type :=
| FileNotFoundError
| JSONDecodeError.

Inductive Result (A : Type) : Type :=
| Ok (a : A)
| SysExit (code : Z)
| Raised (e : Exn).

Arguments Ok {A} a.
Arguments SysExit {A} code.
Arguments Raised {A} e.

Definition M (A : Type) : Type := World -> Result A * World.

Definition ret {A} (a : A) : M A := fun w => (Ok a, w).

Definition bind {A B} (m : M A) (k : A -> M B) : M B :=
  fun w =>
    match m w with
    | (Ok a, w') => k a w'
    | (SysExit c, w') => (SysExit c, w')
    | (Raised e, w') => (Raised e, w')
    end.

Declare Scope prog_scope.
Delimit Scope prog_scope with prog.
Notation "x <- c1 ;; c2" := (bind c1 (fun x => c2))
  (at level 20, c1 at level 99, c2 at level 200) : prog_scope.
Notation "c1 ;; c2" := (bind c1 (fun _ => c2))
  (at level 100, c2 at level 200, right associativity) : prog_scope.
Local Open Scope prog_scope.

(** [sys.exit(code)] *)
Definition sys_exit {A} (code : Z) : M A := fun w => (SysExit code, w).

Definition raise {A} (e : Exn) : M A := fun w => (Raised e, w).

(** [try: m  except: handler] with a bare [except], which catches
    everything. *)
Definition try_except {A} (m handler : M A) : M A :=
  fun w =>
    match m w with
    | (Ok a, w') => (Ok a, w')
    | (_, w') => handler w'
    end.

(** The exit status the operating system sees. *)
Definition exit_status {A} (r : Result A) : Z :=
  match r with
  | Ok _ => 0
  | SysExit code => code
  | Raised _ => 1
  end.

(** [for x in xs] with loop-carried variables [s]. *)
Fixpoint for_each {A S} (xs : list A) (body : S -> A -> M S) (s : S) : M S :=
  match xs with
  | [] => ret s
  | x :: xs' => s' <- body s x ;; for_each xs' body s'
  end.

Definition nl : string := String "010"%char EmptyString.

(** [print(s, end="")] and [print(s)] *)
Definition print_end (s : string) : M unit :=
  fun w =>
    (Ok tt,
     {| routing_ts := routing_ts w; messages := messages w;
        api_calls := api_calls w; stdout := stdout w +:+ s;
        opened_for_write := opened_for_write w |}).

Definition print (s : string) : M unit := print_end (s +:+ nl).

(** [ROUTING_FILE.exists()] and [ROUTING_FILE.read_text(encoding="utf-8")] *)
Definition routing_exists : M bool :=
  fun w => (Ok (bool_decide (is_Some (routing_ts w))), w).

Definition routing_read_text : M string :=
  fun w =>
    match routing_ts w with
    | Some content => (Ok content, w)
    | None => (Raised FileNotFoundError, w)
    end.

(** [(LOCALES_DIR / name).exists()] *)
Definition file_exists (name : string) : M bool :=
  fun w => (Ok (bool_decide (is_Some (messages w !! name))), w).

(** [with open(LOCALES_DIR / name, encoding="utf-8") as f: json.load(f)] *)
Definition json_load (name : string) : M (dict json) :=
  fun w =>
    match messages w !! name with
    | Some (Parsed data) => (Ok data, w)
    | Some Malformed => (Raised JSONDecodeError, w)
    | None => (Raised FileNotFoundError, w)
    end.

(** [with open(LOCALES_DIR / name, "w", encoding="utf-8") as f:
    json.dump(data, f, ensure_ascii=False, indent=2)] *)
Definition json_dump (name : string) (data : dict json) : M unit :=
  fun w =>
    (Ok tt,
     {| routing_ts := routing_ts w;
        messages := <[name := Parsed data]> (messages w);
        api_calls := api_calls w; stdout := stdout w;
        opened_for_write := opened_for_write w ++ [name] |}).

(** The call [deepl_client.translate_text] with [params]; it is recorded. *)
Definition api_translate (env : Env) (client : DeepLClient) (params : Request)
    : M ApiResult :=
  fun w =>
    (Ok (deepl_service env client (api_calls w) params),
     {| routing_ts := routing_ts w; messages := messages w;
        api_calls := api_calls w ++ [params]; stdout := stdout w;
        opened_for_write := opened_for_write w |}).

(** ** The functions of the script *)

(** [load_hashes] *)
Definition load_hashes : M (dict json) :=
  e <- file_exists HASHES_FILE ;;
  if e then try_except (json_load HASHES_FILE) (ret []) else ret [].

(** [save_hashes] *)
Definition save_hashes (hashes : dict json) : M unit :=
  json_dump HASHES_FILE hashes.

(** [get_locales_from_routing] *)
Definition get_locales_from_routing : M (list string) :=
  e <- routing_exists ;;
  if negb e then
    print "❌ Error: src/i18n/routing.ts not found" ;;
    sys_exit 1
  else
    content <- routing_read_text ;;
    match search_locales content with
    | None =>
        print "❌ Error: Could not find locales array in routing.ts" ;;
        sys_exit 1
    | Some locales_str => ret (findall_codes locales_str)
    end.

(** [get_default_locale] *)
Definition get_default_locale : M string :=
  content <- routing_read_text ;;
  ret (match search_default content with
       | Some code => code
       | None => "de"
       end).

(** [get_all_namespaces] *)
Definition get_all_namespaces : M (list string) :=
  e <- file_exists "de.json" ;;
  if negb e then
    print "❌ Error: File src/messages/de.json not found" ;;
    ret []
  else ret ["messages"].

(** The [params] dictionary built by [translate_text]: [source_lang] is
    set only when it is given and not empty. *)
Definition build_params (text target_lang : string)
    (source_lang : option string) : Request :=
  {| text := text; target_lang := target_lang;
     preserve_formatting := true; tag_handling := "xml";
     source_lang := if truthy_opt source_lang then source_lang else None |}.

(** [translate_text] *)
Definition translate_text (env : Env) (client : DeepLClient)
    (text target_lang : string) (source_lang : option string) : M string :=
  if negb (truthy (strip text)) then ret text
  else if startswith text "__" && endswith text "__" then ret text
  else
    let params := build_params text target_lang source_lang in
    result <- api_translate env client params ;;
    match result with
    | TextResult translated => ret translated
    | DeepLException e =>
        print ("      ❌ Translation error: " +:+ e) ;;
        ret text
    | Exception e =>
        print ("      ❌ Unexpected error: " +:+ e) ;;
        ret text
    end.

(** [stored_hash != current_hash], [stored_hash] being a value of the
    ledger. *)
Definition differs (stored : option json) (current : string) : bool :=
  match stored with
  | Some (JStr h) => negb (bool_decide (h = current))
  | _ => true
  end.

(** Truth value of [hashes.get(key_path)]. *)
Definition truthy_value (v : option json) : bool :=
  match v with
  | Some (JStr h) => truthy h
  | Some (JObj d) => match d with [] => false | _ => true end
  | None => false
  end.

(** The loop "check for changed values in source": one source key. *)
Definition check_changed (state : dict json * nat) (item : string * string)
    : M (dict json * nat) :=
  let '(hashes, changed_keys) := state in
  let '(key_path, value) := item in
  let current_hash := get_hash value in
  let stored_hash := dict_get key_path hashes in
  if differs stored_hash current_hash then
    changed_keys' <-
      (if bool_decide (is_Some stored_hash) then
         print ("   🔑 Changed key detected: " +:+ key_path) ;;
         ret (S changed_keys)
       else ret changed_keys) ;;
    ret (dict_set key_path (JStr current_hash) hashes, changed_keys')
  else ret (hashes, changed_keys).

Inductive reason : Type := missing | changed.

(** The loop "find missing or changed keys": one source key. *)
Definition classify (target_data hashes : dict json)
    (missing_or_changed : list (string * string * reason))
    (item : string * string) : list (string * string * reason) :=
  let '(key_path, value) := item in
  match get_nested_value target_data key_path with
  | None => missing_or_changed ++ [(key_path, value, missing)]
  | Some _ =>
      let current_hash := dict_get key_path hashes in
      if truthy_value current_hash
      then missing_or_changed ++ [(key_path, value, changed)]
      else missing_or_changed
  end.

Definition find_missing_or_changed (src_keys : dict string)
    (target_data hashes : dict json) : list (string * string * reason) :=
  fold_left (classify target_data hashes) src_keys [].

(** The loop "translate missing or changed keys": one batch entry. *)
Definition translate_entry (env : Env) (client : DeepLClient)
    (dl_lang_code source_lang_code : string)
    (state : dict json * nat) (entry : string * string * reason)
    : M (dict json * nat) :=
  let '(target_data, total_translations) := state in
  let '(full_path, value, why) := entry in
  translated <-
    translate_text env client value dl_lang_code (Some source_lang_code) ;;
  let target_data' := merge_key full_path translated target_data in
  let status_icon := match why with changed => "🔄" | missing => "✓" end in
  print ("      " +:+ status_icon +:+ " " +:+ full_path) ;;
  ret (target_data', S total_translations).

(** The body of [for target_locale in target_locales]. *)
Definition translate_locale (env : Env) (client : DeepLClient)
    (source_lang_code : string) (src_keys : dict string)
    (hashes : dict json) (changed_keys : nat)
    (total_translations : nat) (target_locale : string) : M nat :=
  let dl_lang_code := dict_get target_locale DEEPL_LANG_CODES in
  if negb (truthy_opt dl_lang_code) then
    print ("   " +:+ target_locale +:+ ": ⚠️  Skip - not supported by DeepL") ;;
    ret total_translations
  else
    let dl_lang_code := default EmptyString dl_lang_code in
    let target_file := locale_json target_locale in
    target_data <- try_except (json_load target_file) (ret []) ;;
    let missing_or_changed :=
      find_missing_or_changed src_keys target_data hashes in
    match missing_or_changed with
    | [] =>
        print ("   " +:+ target_locale +:+ ": ✅ All keys present and up-to-date") ;;
        ret total_translations
    | _ =>
        print_end ("   " +:+ target_locale +:+ ": Translating "
                   +:+ pretty (length missing_or_changed) +:+ " keys") ;;
        (if bool_decide (0 < changed_keys)%nat then
           print (" (including " +:+ pretty changed_keys +:+ " changed)")
         else print EmptyString) ;;
        st <- for_each missing_or_changed
                (translate_entry env client dl_lang_code source_lang_code)
                (target_data, total_translations) ;;
        json_dump target_file st.1 ;;
        print ("   " +:+ target_locale +:+ ": ✅ Saved translations") ;;
        ret st.2
    end.

(** The body of [for ns in namespaces]. *)
Definition process_namespace (env : Env) (client : DeepLClient)
    (default_locale source_lang_code : string) (target_locales : list string)
    (state : dict json * nat * nat) (ns : string) : M (dict json * nat * nat) :=
  let '(hashes, total_translations, changed_keys) := state in
  let src_file := locale_json default_locale in
  e <- file_exists src_file ;;
  if negb e then
    print ("⚠️  Skipping " +:+ ns +:+ " - source file not found") ;;
    ret state
  else
    src_data <- json_load src_file ;;
    print ("📦 Processing: src/messages/" +:+ src_file) ;;
    print ("   Total namespaces: " +:+ pretty (length src_data)) ;;
    let src_keys := collect_all_keys src_data EmptyString in
    hc <- for_each src_keys check_changed (hashes, changed_keys) ;;
    let '(hashes, changed_keys) := hc in
    total_translations <-
      for_each target_locales
        (translate_locale env client source_lang_code src_keys hashes changed_keys)
        total_translations ;;
    print EmptyString ;;
    ret (hashes, total_translations, changed_keys).

(** [main] *)
Definition main (env : Env) (client : DeepLClient) : M unit :=
  print "🌍 Starting DeepL Auto-Translation (using official library with hash tracking)..." ;;
  all_locales <- get_locales_from_routing ;;
  default_locale <- get_default_locale ;;
  let source_lang_code := upper default_locale in
  print ("   Source locale: " +:+ default_locale) ;;
  print ("   All locales: " +:+ join ", " all_locales) ;;
  let target_locales :=
    filter (fun loc => loc ≠ default_locale) all_locales in
  match target_locales with
  | [] => print "   ⚠️  No target locales found (only default locale configured)"
  | _ =>
      print ("   Target locales: " +:+ join ", " target_locales) ;;
      print EmptyString ;;
      namespaces <- get_all_namespaces ;;
      match namespaces with
      | [] => print "❌ No namespaces found"
      | _ =>
          hashes <- load_hashes ;;
          st <- for_each namespaces
                  (process_namespace env client default_locale
                     source_lang_code target_locales)
                  (hashes, 0%nat, 0%nat) ;;
          let '(hashes, total_translations, changed_keys) := st in
          save_hashes hashes ;;
          print "✅ Translation complete!" ;;
          print ("   Total translations: " +:+ pretty total_translations) ;;
          print ("   Changed keys re-translated: " +:+ pretty changed_keys) ;;
          print ("   DeepL quota used: ~" +:+ pretty total_translations
                 +:+ " characters")
      end
  end.

(** The module as executed: the import, the credential check, the client,
    then [main]. *)
Definition script (env : Env) : M unit :=
  if negb (deepl_installed env) then
    print "❌ Error: deepl module not found" ;;
    print "   Run: pip install deepl" ;;
    sys_exit 1
  else if negb (truthy_opt (DEEPL_API_KEY env)) then
    print "❌ Error: DEEPL_API_KEY environment variable not set" ;;
    print "   Set it in GitHub Secrets: DEEPL_API_KEY" ;;
    sys_exit 1
  else
    let key := default EmptyString (DEEPL_API_KEY env) in
    let deepl_client :=
      if contains ":fx" key
      then {| auth_key := key; server_url := None |}
      else {| auth_key := key;
              server_url := Some "https://api-free.deepl.com" |} in
    main env deepl_client.

(** ** Notions used to state the properties *)

(** The merge loop run over a whole batch with the values as they are. *)
Definition merge_all (items : dict string) (target_data : dict json)
    : dict json :=
  fold_left (fun t kv => merge_key kv.1 kv.2 t) items target_data.

(** Two part sequences part ways: at some position both have a part and the
    parts differ, so neither is a prefix of the other. *)
Fixpoint diverge (p q : list string) : bool :=
  match p, q with
  | a :: p', b :: q' => if decide (a = b) then diverge p' q' else true
  | _, _ => false
  end.

Fixpoint dot_free (s : string) : bool :=
  match s with
  | String c s' => negb (bool_decide (c = "."%char)) && dot_free s'
  | EmptyString => true
  end.

Definition is_obj (v : json) : bool :=
  match v with JObj _ => true | JStr _ => false end.

(** The keys of every object are distinct, as in any Python dictionary. *)
Fixpoint unique_keys (v : json) : bool :=
  match v with
  | JStr _ => true
  | JObj d => bool_decide (NoDup (d.*1)) && forallb (fun kv => unique_keys kv.2) d
  end.

(** A nested value that flattening does not lose: objects are not empty,
    their keys are distinct and free of dots. *)
Fixpoint nested_ok (v : json) : bool :=
  match v with
  | JStr _ => true
  | JObj d =>
      match d with [] => false | _ => true end
      && bool_decide (NoDup (d.*1))
      && forallb (fun kv => dot_free kv.1 && nested_ok kv.2) d
  end.

(** The same for a catalogue; in addition the empty key, which
    [collect_all_keys] takes for "no prefix", does not hold an object. *)
Definition catalog_ok (data : dict json) : bool :=
  bool_decide (NoDup (data.*1))
  && forallb
       (fun kv => dot_free kv.1 && nested_ok kv.2
                  && (negb (is_obj kv.2) || truthy kv.1)) data.

(** The leaves of a value with their part sequences, in document order. *)
Fixpoint rleaves (v : json) : list (list string * string) :=
  match v with
  | JStr s => [([], s)]
  | JObj d =>
      d ≫= (fun kv => (fun ps => (kv.1 :: ps.1, ps.2)) <$> rleaves kv.2)
  end.

Definition under (path : list string) (l : list (list string * string))
    : list (list string * string) :=
  (fun ps => (path ++ ps.1, ps.2)) <$> l.

(** Dotted keys of part sequences. *)
Definition enc (l : list (list string * string)) : dict string :=
  (fun ps => (join "." ps.1, ps.2)) <$> l.

Definition good_path (p : list string) : Prop :=
  p <> [] /\ Forall (fun k => dot_free k = true) p.

(** The merge loop on part sequences. *)
Definition build (l : list (list string * string)) (t : dict json)
    : dict json :=
  fold_left (fun t ps => set_path ps.1 ps.2 t) l t.

(** Code points CPython classifies as whitespace ([str.isspace]). *)
Definition py_isspace (cp : Z) : bool :=
  ((0x09 <=? cp) && (cp <=? 0x0D)) || ((0x1C <=? cp) && (cp <=? 0x20))
  || (cp =? 0x85) || (cp =? 0xA0) || (cp =? 0x1680)
  || ((0x2000 <=? cp) && (cp <=? 0x200A))
  || (cp =? 0x2028) || (cp =? 0x2029) || (cp =? 0x202F) || (cp =? 0x205F)
  || (cp =? 0x3000).

(** UTF-8 encoding of one code point and of a sequence of code points. *)
Definition utf8_char (cp : Z) : string :=
  string_of_bytes
    (if cp <? 0x80 then [cp]
     else if cp <? 0x800 then
       [Z.lor 0xC0 (Z.shiftr cp 6); Z.lor 0x80 (Z.land cp 0x3F)]
     else if cp <? 0x10000 then
       [Z.lor 0xE0 (Z.shiftr cp 12);
        Z.lor 0x80 (Z.land (Z.shiftr cp 6) 0x3F);
        Z.lor 0x80 (Z.land cp 0x3F)]
     else
       [Z.lor 0xF0 (Z.shiftr cp 18);
        Z.lor 0x80 (Z.land (Z.shiftr cp 12) 0x3F);
        Z.lor 0x80 (Z.land (Z.shiftr cp 6) 0x3F);
        Z.lor 0x80 (Z.land cp 0x3F)]).

Fixpoint encode_utf8 (cps : list Z) : string :=
  match cps with
  | [] => EmptyString
  | cp :: cps' => utf8_char cp +:+ encode_utf8 cps'
  end.


(** ** Sample environments *)

(** A service that answers every request with the text in brackets, and one
    that fails every request. *)
Definition bracket_service (_ : DeepLClient) (_ : list Request) (r : Request)
    : ApiResult :=
  TextResult ("[" +:+ text r +:+ "]").

Definition failing_service (_ : DeepLClient) (_ : list Request) (_ : Request)
    : ApiResult :=
  DeepLException "quota exceeded".

Definition sample_env (service : DeepLClient → list Request → Request → ApiResult)
    : Env :=
  {| deepl_installed := true; DEEPL_API_KEY := Some "0000:fx";
     deepl_service := service |}.

Definition sample_client : DeepLClient :=
  {| auth_key := "0000:fx"; server_url := None |}.

Definition sample_world (routing : option string)
    (files : list (string * json_file)) : World :=
  {| routing_ts := routing; messages := list_to_map files;
     api_calls := []; stdout := EmptyString; opened_for_write := [] |}.

(** ** Notions used in the proofs *)

(** [w'] differs from [w] by console output and recorded requests only. *)
Definition quiet (w w' : World) : Prop :=
  routing_ts w' = routing_ts w ∧ messages w' = messages w
  ∧ opened_for_write w' = opened_for_write w.

(** What merging the leaves of one value under a new key produces. *)
Definition rebuilds (c : json) : Prop :=
  nested_ok c = true →
  ∀ k acc, k ∉ dict_keys acc →
    build ((fun ps => (k :: ps.1, ps.2)) <$> rleaves c) acc = acc ++ [(k, c)].

(** The leaves of the children of an object reached by [path]. *)
Definition children (path : list string) (d : dict json)
    : list (list string * string) :=
  d ≫= (fun kv => under (path ++ [kv.1]) (rleaves kv.2)).

(** What flattening one value at [path] adds to a result that holds the
    dotted keys of [R]. *)
Definition flattened (v : json) : Prop :=
  ∀ path R,
    nested_ok v = true →
    good_path path →
    (is_obj v = true → join "." path ≠ EmptyString) →
    Forall good_path R.*1 →
    NoDup (R ++ under path (rleaves v)).*1 →
    collect_value v (join "." path) (enc R)
    = enc (R ++ under path (rleaves v)).


(** The default locale [main] works with in world [w]. *)
Definition configured_default (w : World) : string :=
  match routing_ts w with
  | Some content =>
      match search_default content with
      | Some code => code
      | None => "de"
      end
  | None => "de"
  end.

(** What [load_hashes] returns in world [w]. *)
Definition ledger (w : World) : dict json :=
  match messages w !! HASHES_FILE with
  | Some (Parsed hashes) => hashes
  | _ => []
  end.

(** From [w] to [w'] the routing file is untouched and every name newly
    opened for writing satisfies [allowed]. *)
Definition writes_only (allowed : string → Prop) (w w' : World) : Prop :=
  routing_ts w' = routing_ts w
  ∧ ∃ new, opened_for_write w' = opened_for_write w ++ new
           ∧ Forall allowed new.

Definition keys_grow (h h' : dict json) : Prop :=
  ∀ k, k ∈ dict_keys h → k ∈ dict_keys h'.

Definition hashes_grow (s s' : dict json * nat) : Prop := keys_grow s.1 s'.1.

(** The names a run started in [w] may open for writing: the ledger, and
    the catalogue of a locale code listed in the routing file and different
    from the default locale. *)
Definition allowed_write (w : World) (name : string) : Prop :=
  name = HASHES_FILE
  ∨ ∃ loc, name = locale_json loc ∧ loc ≠ configured_default w
           ∧ ∃ content locales_str,
               routing_ts w = Some content
               ∧ search_locales content = Some locales_str
               ∧ loc ∈ findall_codes locales_str.

(** The run could not read its routing configuration. *)
Definition routing_unusable (w : World) : Prop :=
  routing_ts w = None
  ∨ ∃ content, routing_ts w = Some content ∧ search_locales content = None.

(** ** Notions used to state further properties *)

(** From [w] to [w'] only the console output changed. *)
Definition only_prints (w w' : World) : Prop :=
  routing_ts w' = routing_ts w ∧ messages w' = messages w
  ∧ api_calls w' = api_calls w
  ∧ opened_for_write w' = opened_for_write w.

(** A locale code as the routing patterns capture it: two letters of
    [a-z]. *)
Definition two_lower (s : string) : bool :=
  match s with
  | String a (String b EmptyString) => lower_az a && lower_az b
  | _ => false
  end.

(** A lowercase hexadecimal digit. *)
Definition is_hex (c : ascii) : bool :=
  let b := byte_of c in
  ((48 <=? b) && (b <=? 57)) || ((97 <=? b) && (b <=? 102)).

Fixpoint str_forallb (f : ascii → bool) (s : string) : bool :=
  match s with
  | String c s' => f c && str_forallb f s'
  | EmptyString => true
  end.

(** No part sequence of the list is a prefix of another one. *)
Fixpoint prefix_free (l : list (list string)) : bool :=
  match l with
  | [] => true
  | p :: l' => forallb (diverge p) l' && prefix_free l'
  end.

(** The request [translate_text] sends for [value] in the merge loop. *)
Definition entry_request (dl_lang_code source_lang_code : string)
    (entry : string * string * reason) : Request :=
  build_params entry.1.2 dl_lang_code (Some source_lang_code).

(** From [w] to [w'] the routing file is untouched, and so is every file
    of [src/messages] whose name is not [allowed]. *)
Definition changes_only (allowed : string → Prop) (w w' : World) : Prop :=
  routing_ts w' = routing_ts w
  ∧ ∀ name, ¬ allowed name → messages w' !! name = messages w !! name.

(** * Properties *)

(** ** Sample evaluations *)

Example md5_empty :
  MD5.hexdigest (bytes_of_string "") = "d41d8cd98f00b204e9800998ecf8427e".
Proof. vm_compute. reflexivity. Qed.

Example md5_abc :
  MD5.hexdigest (bytes_of_string "abc") = "900150983cd24fb0d6963f7d28e17f72".
Proof. vm_compute. reflexivity. Qed.

Example md5_two_blocks :
  MD5.hexdigest (bytes_of_string
    "xxxxxxxxxxxxxxxxxxxxxxxxxxxxxxxxxxxxxxxxxxxxxxxxxxxxxxxxxxxxxxxxxxxxxx")
  = "7d56c0f83fd1e320d60ea2f13dfdeedd".
Proof. vm_compute. reflexivity. Qed.

Example get_hash_Hallo : get_hash "Hallo" = "d1bf9329".
Proof. vm_compute. reflexivity. Qed.

Example split_dot_ex : split_dot "a.b..c." = ["a"; "b"; ""; "c"; ""].
Proof. reflexivity. Qed.

Example collect_ex :
  collect_all_keys
    [("a", JObj [("b", JStr "Hallo"); ("c", JObj [("d", JStr "x")])]);
     ("e", JStr "y")] ""
  = [("a.b", "Hallo"); ("a.c.d", "x"); ("e", "y")].
Proof. reflexivity. Qed.

Example merge_ex :
  merge_key "a.c.d" "X" [("a", JObj [("b", JStr "Hallo")]); ("e", JStr "y")]
  = [("a", JObj [("b", JStr "Hallo"); ("c", JObj [("d", JStr "X")])]);
     ("e", JStr "y")].
Proof. reflexivity. Qed.

Example strip_ex : strip "  a b  " = "a b".
Proof. reflexivity. Qed.

Example search_locales_ex :
  search_locales "export const routing = { locales : ['de', 'en'], defaultLocale: 'de' }"
  = Some "'de', 'en'".
Proof. reflexivity. Qed.

Example findall_codes_ex : findall_codes "'de', 'en','x', 'ru'" = ["de"; "en"; "ru"].
Proof. reflexivity. Qed.

Example search_default_ex :
  search_default "{ locales: ['de', 'en'], defaultLocale : 'en' }" = Some "en".
Proof. reflexivity. Qed.

Example upper_ex : upper "de" = "DE".
Proof. reflexivity. Qed.

(** A first run on source [{"a": {"b": "Hallo"}}] with no English catalogue:
    one request, the translation stored under [a.b], a ledger entry for
    [a.b], exit status 0. *)
Example first_run :
  let r :=
    script (sample_env bracket_service)
      (sample_world (Some "locales: ['de', 'en'], defaultLocale: 'de'")
         [("de.json", Parsed [("a", JObj [("b", JStr "Hallo")])])]) in
  exit_status r.1 = 0
  ∧ api_calls r.2 = [build_params "Hallo" "EN-US" (Some "DE")]
  ∧ messages r.2 !! locale_json "en"
    = Some (Parsed [("a", JObj [("b", JStr "[Hallo]")])])
  ∧ ledger r.2 = [("a.b", JStr "d1bf9329")]
  ∧ opened_for_write r.2 = ["en.json"; HASHES_FILE].
Proof. vm_compute. repeat split. Qed.

(** The same run when every request fails: the literal source string is
    stored under [x.y] and the exit status is still 0. *)
Example run_with_failing_service :
  let r :=
    script (sample_env failing_service)
      (sample_world (Some "locales: ['de', 'en'], defaultLocale: 'de'")
         [("de.json", Parsed [("x", JObj [("y", JStr "Hallo")])])]) in
  exit_status r.1 = 0
  ∧ messages r.2 !! locale_json "en"
    = Some (Parsed [("x", JObj [("y", JStr "Hallo")])]).
Proof. vm_compute. repeat split. Qed.

(** ** Dictionaries *)

Section DictFacts.
Context {V : Type}.
Implicit Types (d : dict V) (k : string) (v : V).

Lemma dict_get_set_eq k v d : dict_get k (dict_set k v d) = Some v.
Proof.
  induction d as [|[k' v'] d IH]; simpl.
  - by rewrite decide_True.
  - destruct (decide (k' = k)) as [->|Hne]; simpl.
    + by rewrite decide_True.
    + by rewrite decide_False.
Qed.

Lemma dict_get_set_ne k k' v d :
  k ≠ k' → dict_get k' (dict_set k v d) = dict_get k' d.
Proof.
  intros Hne. induction d as [|[k0 v0] d IH]; simpl.
  - by rewrite decide_False.
  - destruct (decide (k0 = k)) as [->|Hk]; simpl.
    + by rewrite !decide_False.
    + by rewrite IH.
Qed.

Lemma dict_get_fresh k d : k ∉ dict_keys d → dict_get k d = None.
Proof.
  induction d as [|[k' v'] d IH]; simpl; [done|].
  intros Hk. apply not_elem_of_cons in Hk as [Hne Hk].
  rewrite decide_False by done. by apply IH.
Qed.

Lemma dict_set_fresh k v d : k ∉ dict_keys d → dict_set k v d = d ++ [(k, v)].
Proof.
  induction d as [|[k' v'] d IH]; simpl; [done|].
  intros Hk. apply not_elem_of_cons in Hk as [Hne Hk].
  rewrite decide_False by done. by rewrite IH.
Qed.

Lemma dict_get_last k v d :
  k ∉ dict_keys d → dict_get k (d ++ [(k, v)]) = Some v.
Proof.
  intros Hk. rewrite <- (dict_set_fresh k v d Hk). apply dict_get_set_eq.
Qed.

Lemma dict_set_last k v v' d :
  k ∉ dict_keys d → dict_set k v' (d ++ [(k, v)]) = d ++ [(k, v')].
Proof.
  induction d as [|[k0 v0] d IH]; simpl.
  - by rewrite decide_True.
  - intros Hk. apply not_elem_of_cons in Hk as [Hne Hk].
    rewrite decide_False by done. by rewrite IH.
Qed.

Lemma dict_keys_set k k' v d :
  k' ∈ dict_keys (dict_set k v d) ↔ k' = k ∨ k' ∈ dict_keys d.
Proof.
  induction d as [|[k0 v0] d IH]; simpl.
  - rewrite elem_of_cons, elem_of_nil. tauto.
  - destruct (decide (k0 = k)) as [->|Hne]; simpl.
    + rewrite !elem_of_cons. intuition congruence.
    + rewrite !elem_of_cons, IH. tauto.
Qed.

End DictFacts.

(** ** [split_dot] and dotted keys *)

Lemma split_dot_nonempty s : split_dot s ≠ [].
Proof.
  destruct s as [|c s]; simpl; [done|].
  destruct (decide (c = "."%char)); [done|].
  by destruct (split_dot s).
Qed.

Lemma split_dot_dot_free k : dot_free k = true → split_dot k = [k].
Proof.
  induction k as [|c k IH]; simpl; [done|].
  intros [Hc Hk]%andb_prop.
  apply negb_true_iff, bool_decide_eq_false in Hc.
  rewrite decide_False by done. by rewrite IH.
Qed.

Lemma split_dot_app a b :
  split_dot (a +:+ "." +:+ b) = split_dot a ++ split_dot b.
Proof.
  induction a as [|c a IH]; simpl; [done|].
  destruct (decide (c = "."%char)); simpl.
  - by rewrite <- IH.
  - change (String.append a (String "." b)) with (a +:+ "." +:+ b).
    rewrite IH. pose proof (split_dot_nonempty a).
    by destruct (split_dot a).
Qed.

Lemma split_dot_join p :
  good_path p → split_dot (join "." p) = p.
Proof.
  intros [Hne Hdf]. induction p as [|k p IH]; [done|].
  apply Forall_cons in Hdf as [Hk Hp].
  destruct p as [|k2 p].
  - simpl. by apply split_dot_dot_free.
  - change (join "." (k :: k2 :: p)) with (k +:+ "." +:+ join "." (k2 :: p)).
    rewrite split_dot_app, split_dot_dot_free by done.
    simpl. f_equal. by apply IH.
Qed.

Lemma str_app_cons (x : ascii) (a b : string) :
  String x a +:+ b = String x (a +:+ b).
Proof. reflexivity. Qed.

Lemma str_app_nil (b : string) : EmptyString +:+ b = b.
Proof. reflexivity. Qed.

Lemma string_app_assoc (a b c : string) : (a +:+ b) +:+ c = a +:+ b +:+ c.
Proof.
  induction a as [|x a IH]; [done|].
  by rewrite !str_app_cons, IH.
Qed.

Lemma join_snoc p k :
  p ≠ [] → join "." (p ++ [k]) = join "." p +:+ "." +:+ k.
Proof.
  intros Hne. induction p as [|a p IH]; [done|].
  destruct p as [|b p].
  - done.
  - change (join "." ((a :: b :: p) ++ [k]))
      with (a +:+ "." +:+ join "." ((b :: p) ++ [k])).
    rewrite IH by done.
    change (join "." (a :: b :: p)) with (a +:+ "." +:+ join "." (b :: p)).
    by rewrite !string_app_assoc.
Qed.

Lemma string_app_dot_nonempty (a b : string) : a +:+ "." +:+ b ≠ EmptyString.
Proof. by destruct a. Qed.

Lemma child_path_join path k :
  (path = [] ∨ join "." path ≠ EmptyString) →
  child_path (join "." path) k = join "." (path ++ [k]).
Proof.
  unfold child_path. intros [->|Hne]; [done|].
  rewrite decide_False by done.
  destruct path; [done|]. by rewrite join_snoc.
Qed.

(** ** Steps that neither exit nor touch the files *)

Lemma quiet_refl w : quiet w w.
Proof. by repeat split. Qed.

Lemma quiet_trans w1 w2 w3 : quiet w1 w2 → quiet w2 w3 → quiet w1 w3.
Proof.
  intros (H1 & H2 & H3) (H4 & H5 & H6).
  repeat split; congruence.
Qed.

Lemma bind_ok {A B} (m : M A) (k : A → M B) w a w' :
  m w = (Ok a, w') → bind m k w = k a w'.
Proof. unfold bind. by intros ->. Qed.

Lemma print_end_ok s w : ∃ w', print_end s w = (Ok tt, w') ∧ quiet w w'.
Proof. eexists. split; [done|]. by repeat split. Qed.

Lemma print_ok s w : ∃ w', print s w = (Ok tt, w') ∧ quiet w w'.
Proof. apply print_end_ok. Qed.

Lemma api_translate_ok env client params w :
  ∃ w', api_translate env client params w
        = (Ok (deepl_service env client (api_calls w) params), w')
        ∧ quiet w w' ∧ api_calls w' = api_calls w ++ [params].
Proof. eexists. split; [done|]. by repeat split. Qed.

Lemma translate_text_ok env client text tl sl w :
  ∃ translated w',
    translate_text env client text tl sl w = (Ok translated, w') ∧ quiet w w'.
Proof.
  unfold translate_text.
  destruct (negb (truthy (strip text))).
  { exists text, w. split; [done|apply quiet_refl]. }
  destruct (startswith text "__" && endswith text "__").
  { exists text, w. split; [done|apply quiet_refl]. }
  destruct (api_translate_ok env client (build_params text tl sl) w)
    as (w1 & Hcall & Hq1 & _).
  rewrite (bind_ok _ _ _ _ _ Hcall).
  destruct (deepl_service env client (api_calls w) (build_params text tl sl))
    as [t|e|e].
  - exists t, w1. by split.
  - destruct (print_ok ("      ❌ Translation error: " +:+ e) w1)
      as (w2 & Hp & Hq2).
    rewrite (bind_ok _ _ _ _ _ Hp).
    exists text, w2. split; [done|]. by eapply quiet_trans.
  - destruct (print_ok ("      ❌ Unexpected error: " +:+ e) w1)
      as (w2 & Hp & Hq2).
    rewrite (bind_ok _ _ _ _ _ Hp).
    exists text, w2. split; [done|]. by eapply quiet_trans.
Qed.

Lemma translate_entry_ok env client dl src target total full_path value why w :
  ∃ translated w',
    translate_entry env client dl src (target, total) (full_path, value, why) w
    = (Ok (merge_key full_path translated target, S total), w')
    ∧ (translate_text env client value dl (Some src) w).1 = Ok translated
    ∧ quiet w w'.
Proof.
  unfold translate_entry.
  destruct (translate_text_ok env client value dl (Some src) w)
    as (translated & w1 & Ht & Hq1).
  rewrite (bind_ok _ _ _ _ _ Ht).
  match goal with
  | |- context [bind (print ?s) _ w1] =>
      destruct (print_ok s w1) as (w2 & Hp & Hq2);
      rewrite (bind_ok _ _ _ _ _ Hp)
  end.
  exists translated, w2. rewrite Ht. repeat split; try done.
  all: destruct Hq1 as (?&?&?), Hq2 as (?&?&?); congruence.
Qed.

(** ** The merge loop leaves diverging paths alone *)

Lemma descend_empty q : q ≠ [] → descend q (JObj []) = None.
Proof. by destruct q. Qed.

Lemma descend_leaf q s : q ≠ [] → descend q (JStr s) = None.
Proof. by destruct q. Qed.

Lemma set_path_frame p q s t :
  diverge p q = true →
  descend q (JObj (set_path p s t)) = descend q (JObj t).
Proof.
  revert q t. induction p as [|a p IH]; intros q t Hd; [done|].
  destruct q as [|b q]; [done|]. simpl in Hd.
  destruct (decide (a = b)) as [<-|Hne].
  - destruct p as [|a2 p]; [by destruct q|].
    change (set_path (a :: a2 :: p) s t)
      with (dict_set a
              (JObj (set_path (a2 :: p) s
                       match dict_get a t with
                       | Some (JObj d) => d
                       | _ => []
                       end)) t).
    cbn [descend]. rewrite dict_get_set_eq, (IH _ _ Hd).
    assert (q ≠ []) as Hq by (by destruct q).
    destruct (dict_get a t) as [[s0|d]|].
    + by rewrite descend_empty, descend_leaf.
    + done.
    + by rewrite descend_empty.
  - assert (∃ v, set_path (a :: p) s t = dict_set a v t) as [v ->].
    { destruct p; simpl; eauto. }
    cbn [descend]. by rewrite dict_get_set_ne.
Qed.

Lemma for_each_translate_entry env client dl src batch target total w q :
  forallb (fun entry => diverge (split_dot entry.1.1) (split_dot q)) batch = true →
  ∃ target' total' w',
    for_each batch (translate_entry env client dl src) (target, total) w
    = (Ok (target', total'), w')
    ∧ get_nested_value target' q = get_nested_value target q
    ∧ quiet w w'.
Proof.
  revert target total w.
  induction batch as [|[[full_path value] why] batch IH]; intros target total w Hd.
  - exists target, total, w. repeat split; try done.
  - simpl in Hd. apply andb_prop in Hd as [Hd1 Hd2].
    destruct (translate_entry_ok env client dl src target total
                full_path value why w) as (translated & w1 & He & _ & Hq1).
    cbn [for_each]. rewrite (bind_ok _ _ _ _ _ He).
    destruct (IH (merge_key full_path translated target) (S total) w1 Hd2)
      as (target' & total' & w' & Hrun & Hget & Hq2).
    exists target', total', w'. split; [done|]. split.
    + rewrite Hget. unfold get_nested_value, merge_key.
      by apply set_path_frame.
    + by eapply quiet_trans.
Qed.

(** C3, as amended.  The merge loop of [main], run over a batch of missing or
    changed key paths with whatever translations the service returns, does
    not change the value found at any key path whose parts diverge from the
    parts of every path of the batch (neither is a prefix of the other). *)
Theorem merge_loop_preserves_diverging_paths env client dl src batch target total w q :
  forallb (fun entry => diverge (split_dot entry.1.1) (split_dot q)) batch = true →
  ∃ target' total' w',
    for_each batch (translate_entry env client dl src) (target, total) w
    = (Ok (target', total'), w')
    ∧ get_nested_value target' q = get_nested_value target q.
Proof.
  intros Hd.
  destruct (for_each_translate_entry env client dl src batch target total w q Hd)
    as (target' & total' & w' & Hrun & Hget & _).
  by exists target', total', w'.
Qed.

Lemma merge_loop_preserves_diverging_paths_witness :
  forallb (fun entry : string * string * reason =>
             diverge (split_dot entry.1.1) (split_dot "a.c"))
    [("a.b", "Hallo", missing); ("d", "Welt", changed)] = true
  ∧ ∃ target' total' w',
      for_each [("a.b", "Hallo", missing); ("d", "Welt", changed)]
        (translate_entry (sample_env bracket_service) sample_client "EN-US" "DE")
        ([("a", JObj [("c", JStr "kept")]); ("d", JStr "old")], 0%nat)
        (sample_world None [])
      = (Ok (target', total'), w')
      ∧ get_nested_value target' "a.c"
        = get_nested_value [("a", JObj [("c", JStr "kept")]); ("d", JStr "old")] "a.c".
Proof.
  split; [reflexivity|].
  apply (merge_loop_preserves_diverging_paths
           (sample_env bracket_service) sample_client "EN-US" "DE"
           [("a.b", "Hallo", missing); ("d", "Welt", changed)]
           [("a", JObj [("c", JStr "kept")]); ("d", JStr "old")] 0%nat
           (sample_world None []) "a.c").
  reflexivity.
Defined.

(** C3 as stated fails: a leaf of the target catalogue that sits on a proper
    prefix of a merged path is replaced by an object, although its own key
    path is not in the batch. *)
Lemma merge_loop_replaces_leaf_on_prefix :
  ¬ (∀ env client dl src (batch : list (string * string * reason))
       target total w q v target' total' w',
       unique_keys (JObj target) = true →
       (q, v) ∈ collect_all_keys target EmptyString →
       q ∉ map (fun entry => entry.1.1) batch →
       for_each batch (translate_entry env client dl src) (target, total) w
       = (Ok (target', total'), w') →
       get_nested_value target' q = get_nested_value target q).
Proof.
  intros H.
  assert (get_nested_value [("a", JObj [("b", JStr "[Hallo]")])] "a"
          = get_nested_value [("a", JStr "alt")] "a") as Habs.
  { eapply (H (sample_env bracket_service) sample_client "EN-US" "DE"
              [("a.b", "Hallo", missing)] [("a", JStr "alt")] 0%nat
              (sample_world None []) "a" "alt").
    - reflexivity.
    - apply list_elem_of_singleton. reflexivity.
    - intros Hin. apply list_elem_of_singleton in Hin. discriminate.
    - vm_compute. reflexivity. }
  vm_compute in Habs. discriminate.
Qed.

(** ** The translator adapter *)

Lemma py_isspace_cases cp :
  py_isspace cp = true →
  cp ∈ [0x09; 0x0A; 0x0B; 0x0C; 0x0D; 0x1C; 0x1D; 0x1E; 0x1F; 0x20;
        0x85; 0xA0; 0x1680; 0x2000; 0x2001; 0x2002; 0x2003; 0x2004; 0x2005;
        0x2006; 0x2007; 0x2008; 0x2009; 0x200A; 0x2028; 0x2029; 0x202F;
        0x205F; 0x3000].
Proof.
  unfold py_isspace. intros H.
  repeat rewrite ?orb_true_iff, ?andb_true_iff in H.
  repeat rewrite ?Z.leb_le, ?Z.eqb_eq in H.
  repeat rewrite elem_of_cons. rewrite elem_of_nil. lia.
Qed.

Lemma lstrip_utf8_space cp s :
  py_isspace cp = true → lstrip (utf8_char cp +:+ s) = lstrip s.
Proof.
  intros H%py_isspace_cases.
  repeat (apply elem_of_cons in H as [->|H]; [reflexivity|]).
  by apply elem_of_nil in H.
Qed.

Lemma lstrip_whitespace_only cps :
  forallb py_isspace cps = true → lstrip (encode_utf8 cps) = EmptyString.
Proof.
  induction cps as [|cp cps IH]; [done|].
  intros [Hcp Hcps]%andb_prop. cbn [encode_utf8].
  rewrite lstrip_utf8_space by done. by apply IH.
Qed.

Lemma endswith_app m p : endswith (m +:+ p) p = true.
Proof.
  induction m as [|c m IH].
  - rewrite str_app_nil. destruct p; cbn [endswith]; by destruct (decide _).
  - rewrite str_app_cons. simpl.
    destruct (decide (String c (m +:+ p) = p)); [done|apply IH].
Qed.

Lemma startswith_app p m : startswith (p +:+ m) p = true.
Proof.
  unfold startswith.
  assert (strip_prefix p (p +:+ m) = Some m) as ->; [|done].
  induction p as [|c p IH]; [done|].
  rewrite str_app_cons. simpl. by rewrite decide_True.
Qed.

(** C4.  A text made of whitespace only (the empty text included), and a
    text that starts and ends with the double underscore, come back from
    [translate_text] unchanged, in an unchanged world: no request is sent,
    whatever the target and source language codes. *)
Theorem translate_text_skips env client text tl sl w :
  (∃ cps, forallb py_isspace cps = true ∧ text = encode_utf8 cps)
  ∨ ((∃ m, text = "__" +:+ m) ∧ (∃ m, text = m +:+ "__")) →
  translate_text env client text tl sl w = (Ok text, w).
Proof.
  unfold translate_text. intros [(cps & Hcps & ->)|[[m1 H1] [m2 H2]]].
  - unfold strip. by rewrite lstrip_whitespace_only.
  - destruct (negb (truthy (strip text))); [done|].
    assert (startswith text "__" = true) as ->
      by (rewrite H1; apply startswith_app).
    assert (endswith text "__" = true) as ->
      by (rewrite H2; apply endswith_app).
    done.
Qed.

Lemma translate_text_skips_witness :
  ((∃ cps, forallb py_isspace cps = true ∧ "__count__" = encode_utf8 cps)
   ∨ ((∃ m, "__count__" = "__" +:+ m) ∧ (∃ m, "__count__" = m +:+ "__")))
  ∧ translate_text (sample_env bracket_service) sample_client
      "__count__" "EN-US" (Some "DE") (sample_world None [])
    = (Ok "__count__", sample_world None []).
Proof.
  assert ((∃ cps, forallb py_isspace cps = true ∧ "__count__" = encode_utf8 cps)
          ∨ ((∃ m, "__count__" = "__" +:+ m) ∧ (∃ m, "__count__" = m +:+ "__")))
    as Hyp.
  { right. split; [by exists "count__"|by exists "__count"]. }
  split; [exact Hyp|].
  exact (translate_text_skips (sample_env bracket_service) sample_client
           "__count__" "EN-US" (Some "DE") (sample_world None []) Hyp).
Defined.

Lemma descend_set_path_same parts s t :
  parts ≠ [] → descend parts (JObj (set_path parts s t)) = Some (JStr s).
Proof.
  revert t. induction parts as [|a parts IH]; intros t Hne; [done|].
  destruct parts as [|a2 parts].
  - simpl. by rewrite dict_get_set_eq.
  - change (set_path (a :: a2 :: parts) s t)
      with (dict_set a
              (JObj (set_path (a2 :: parts) s
                       match dict_get a t with
                       | Some (JObj d) => d
                       | _ => []
                       end)) t).
    cbn [descend]. rewrite dict_get_set_eq. by apply IH.
Qed.

Lemma get_nested_value_merge_key full_path s t :
  get_nested_value (merge_key full_path s t) full_path = Some (JStr s).
Proof. apply descend_set_path_same, split_dot_nonempty. Qed.



(** ** The batch of missing or changed keys *)

Lemma classify_keeps target hashes acc item x :
  x ∈ acc → x ∈ classify target hashes acc item.
Proof.
  intros Hx. unfold classify. destruct item as [key_path value].
  destruct (get_nested_value target key_path).
  - destruct (truthy_value (dict_get key_path hashes)); [|done].
    apply elem_of_app; by left.
  - apply elem_of_app; by left.
Qed.

Lemma fold_classify_keeps target hashes items acc x :
  x ∈ acc → x ∈ fold_left (classify target hashes) items acc.
Proof.
  revert acc. induction items as [|item items IH]; intros acc Hx; [done|].
  simpl. by apply IH, classify_keeps.
Qed.

Lemma fold_classify_missing target hashes items acc key_path value :
  (key_path, value) ∈ items →
  get_nested_value target key_path = None →
  (key_path, value, missing) ∈ fold_left (classify target hashes) items acc.
Proof.
  revert acc. induction items as [|item items IH]; intros acc Hin Hnone.
  - by apply elem_of_nil in Hin.
  - simpl. apply elem_of_cons in Hin as [<-|Hin].
    + apply fold_classify_keeps. unfold classify. rewrite Hnone.
      apply elem_of_app; right. by apply list_elem_of_singleton.
    + by apply IH.
Qed.

(** C6.  A key path of the flattened source catalogue for which the lookup
    in the target catalogue yields no value is in the batch of missing or
    changed keys computed for that target, marked as missing. *)
Theorem absent_key_in_batch src_data target_data hashes key_path value :
  (key_path, value) ∈ collect_all_keys src_data EmptyString →
  get_nested_value target_data key_path = None →
  (key_path, value, missing)
  ∈ find_missing_or_changed (collect_all_keys src_data EmptyString)
      target_data hashes.
Proof. apply fold_classify_missing. Qed.

Lemma absent_key_in_batch_witness :
  ("a.b", "Hallo") ∈ collect_all_keys [("a", JObj [("b", JStr "Hallo")])] EmptyString
  ∧ get_nested_value [("a", JObj [("c", JStr "x")])] "a.b" = None
  ∧ ("a.b", "Hallo", missing)
    ∈ find_missing_or_changed
        (collect_all_keys [("a", JObj [("b", JStr "Hallo")])] EmptyString)
        [("a", JObj [("c", JStr "x")])] [("a.b", JStr "d1bf9329")].
Proof.
  assert (("a.b", "Hallo")
          ∈ collect_all_keys [("a", JObj [("b", JStr "Hallo")])] EmptyString)
    as Hin by (apply list_elem_of_singleton; reflexivity).
  split; [exact Hin|]. split; [reflexivity|].
  exact (absent_key_in_batch [("a", JObj [("b", JStr "Hallo")])]
           [("a", JObj [("c", JStr "x")])] [("a.b", JStr "d1bf9329")]
           "a.b" "Hallo" Hin eq_refl).
Defined.

(** ** Flattening and merging back *)

Lemma json_ind' (P : json → Prop) :
  (∀ s, P (JStr s)) →
  (∀ d, Forall (fun kv => P kv.2) d → P (JObj d)) →
  ∀ v, P v.
Proof.
  intros Hs Ho. fix IH 1. intros [s|d]; [apply Hs|].
  apply Ho. induction d as [|[k c] d IHd]; constructor; [apply IH|apply IHd].
Qed.

Lemma forallb_Forall {A} (f : A → bool) (l : list A) :
  forallb f l = true ↔ Forall (fun x => f x = true) l.
Proof.
  induction l as [|x l IH]; simpl.
  - split; [constructor|done].
  - rewrite andb_true_iff, IH, Forall_cons. tauto.
Qed.

Lemma nested_ok_obj d :
  nested_ok (JObj d) = true →
  d ≠ [] ∧ NoDup (d.*1)
  ∧ Forall (fun kv => dot_free kv.1 = true ∧ nested_ok kv.2 = true) d.
Proof.
  cbn [nested_ok]. intros [[Hne Hnd]%andb_prop Hall]%andb_prop.
  split; [by destruct d|]. split; [by apply bool_decide_eq_true in Hnd|].
  apply forallb_Forall in Hall. eapply Forall_impl; [exact Hall|].
  intros kv H. by apply andb_prop in H.
Qed.

Lemma rleaves_cons k c d :
  rleaves (JObj ((k, c) :: d))
  = ((fun ps => (k :: ps.1, ps.2)) <$> rleaves c) ++ rleaves (JObj d).
Proof. reflexivity. Qed.

Lemma rleaves_nonempty v : nested_ok v = true → rleaves v ≠ [].
Proof.
  induction v as [s|d IH] using json_ind'; [done|].
  intros (Hne & _ & Hall)%nested_ok_obj.
  destruct d as [|[k c] d]; [done|].
  rewrite rleaves_cons.
  apply Forall_cons in IH as [IHc _]. apply Forall_cons in Hall as [[_ Hc] _].
  specialize (IHc Hc). simpl in IHc. by destruct (rleaves c).
Qed.

Lemma rleaves_obj_paths d :
  Forall (fun ps => ps.1 ≠ []) (rleaves (JObj d)).
Proof.
  induction d as [|[k c] d IH]; [constructor|].
  rewrite rleaves_cons. apply Forall_app. split; [|done].
  apply Forall_fmap, Forall_forall. by intros [p s] _.
Qed.

Lemma rleaves_dot_free v :
  nested_ok v = true →
  Forall (fun ps => Forall (fun k => dot_free k = true) ps.1) (rleaves v).
Proof.
  induction v as [s|d IH] using json_ind'.
  - intros _. by repeat constructor.
  - intros (_ & _ & Hall)%nested_ok_obj.
    induction d as [|[k c] d IHd]; [constructor|].
    apply Forall_cons in IH as [IHc IHrest].
    apply Forall_cons in Hall as [[Hk Hc] Hrest].
    rewrite rleaves_cons. apply Forall_app. split; [|by apply IHd].
    apply Forall_fmap. eapply Forall_impl; [exact (IHc Hc)|].
    intros [p s] Hp. simpl in *. by constructor.
Qed.

Lemma build_app l1 l2 t : build (l1 ++ l2) t = build l2 (build l1 t).
Proof. apply fold_left_app. Qed.

Lemma set_path_cons k a p s t :
  set_path (k :: a :: p) s t
  = dict_set k
      (JObj (set_path (a :: p) s
               match dict_get k t with
               | Some (JObj d) => d
               | _ => []
               end)) t.
Proof. reflexivity. Qed.

Lemma build_existing_key k l c0 acc :
  k ∉ dict_keys acc →
  Forall (fun ps => ps.1 ≠ []) l →
  build ((fun ps => (k :: ps.1, ps.2)) <$> l) (acc ++ [(k, JObj c0)])
  = acc ++ [(k, JObj (build l c0))].
Proof.
  intros Hk. revert c0.
  induction l as [|[p s] l IH]; intros c0 Hl; [done|].
  apply Forall_cons in Hl as [Hp Hl]. simpl in Hp.
  destruct p as [|a p]; [done|].
  cbn [fmap list_fmap build fold_left fst snd].
  rewrite set_path_cons, dict_get_last, dict_set_last by done.
  by apply IH.
Qed.

Lemma build_new_key k l acc :
  k ∉ dict_keys acc →
  l ≠ [] →
  Forall (fun ps => ps.1 ≠ []) l →
  build ((fun ps => (k :: ps.1, ps.2)) <$> l) acc
  = acc ++ [(k, JObj (build l []))].
Proof.
  intros Hk Hne Hl. destruct l as [|[p s] l]; [done|].
  apply Forall_cons in Hl as [Hp Hl]. simpl in Hp.
  destruct p as [|a p]; [done|].
  cbn [fmap list_fmap build fold_left fst snd].
  rewrite set_path_cons, dict_get_fresh, dict_set_fresh by done.
  by apply build_existing_key.
Qed.

Lemma build_children d acc :
  NoDup (d.*1) →
  Forall (fun kv => nested_ok kv.2 = true) d →
  Forall (fun kv => rebuilds kv.2) d →
  (∀ k, k ∈ d.*1 → k ∉ dict_keys acc) →
  build (rleaves (JObj d)) acc = acc ++ d.
Proof.
  revert acc. induction d as [|[k c] d IH]; intros acc Hnd Hok Hreb Hfresh.
  - by rewrite app_nil_r.
  - rewrite rleaves_cons, build_app.
    apply NoDup_cons in Hnd as [Hk Hnd]. simpl in Hk.
    apply Forall_cons in Hok as [Hc Hok].
    apply Forall_cons in Hreb as [Hrc Hreb].
    cbn [snd] in Hc, Hrc.
    rewrite (Hrc Hc k acc) by (apply Hfresh; simpl; left).
    rewrite IH; try done.
    + by rewrite <- app_assoc.
    + intros k' Hk'. unfold dict_keys. rewrite fmap_app, elem_of_app.
      intros [Hin|Hin].
      * apply (Hfresh k'); [simpl; by right|done].
      * simpl in Hin. apply list_elem_of_singleton in Hin. by subst.
Qed.

Lemma rebuilds_all v : rebuilds v.
Proof.
  induction v as [s|d IH] using json_ind'; intros Hok k acc Hk.
  - cbn. by rewrite dict_set_fresh.
  - pose proof (nested_ok_obj d Hok) as (Hne & Hnd & Hall).
    rewrite build_new_key; try done.
    + rewrite (build_children d []); try done.
      * eapply Forall_impl; [exact Hall|]. by intros kv [_ ?].
      * intros k' _. apply not_elem_of_nil.
    + by apply rleaves_nonempty.
    + apply rleaves_obj_paths.
Qed.

Lemma fst_under_key k (l : list (list string * string)) :
  ((fun ps => (k :: ps.1, ps.2)) <$> l).*1 = (cons k) <$> l.*1.
Proof. induction l as [|[p s] l IH]; [done|]. cbn. by f_equal. Qed.

Lemma rleaves_obj_heads d x :
  x ∈ (rleaves (JObj d)).*1 → ∃ k p, x = k :: p ∧ k ∈ d.*1.
Proof.
  induction d as [|[k c] d IH]; [by intros ?%elem_of_nil|].
  rewrite rleaves_cons, fmap_app, elem_of_app, fst_under_key.
  intros [Hx|Hx].
  - apply list_elem_of_fmap in Hx as (p & -> & _).
    exists k, p. split; [done|]. cbn. apply elem_of_cons. by left.
  - destruct (IH Hx) as (k' & p & -> & Hk').
    exists k', p. split; [done|]. cbn. apply elem_of_cons. by right.
Qed.

Lemma rleaves_children_NoDup d :
  NoDup (d.*1) →
  Forall (fun kv => NoDup (rleaves kv.2).*1) d →
  NoDup (rleaves (JObj d)).*1.
Proof.
  induction d as [|[k c] d IH]; intros Hnd Hall; [constructor|].
  apply NoDup_cons in Hnd as [Hk Hnd].
  apply Forall_cons in Hall as [Hc Hall]. cbn [snd] in Hc.
  rewrite rleaves_cons, fmap_app. apply NoDup_app. split; [|split].
  - rewrite fst_under_key. apply NoDup_fmap_2; [|done].
    intros p q Hpq. by injection Hpq.
  - intros x Hx Hx'. rewrite fst_under_key in Hx.
    apply list_elem_of_fmap in Hx as (p & -> & _).
    apply rleaves_obj_heads in Hx' as (k' & p' & Heq & Hk').
    injection Heq as -> ->. done.
  - by apply IH.
Qed.

Lemma rleaves_NoDup v : nested_ok v = true → NoDup (rleaves v).*1.
Proof.
  induction v as [s|d IH] using json_ind'.
  - intros _. cbn. apply NoDup_singleton.
  - intros (_ & Hnd & Hall)%nested_ok_obj.
    apply rleaves_children_NoDup; [done|].
    apply Forall_forall. intros kv Hkv.
    rewrite Forall_forall in IH. apply IH; [done|].
    rewrite Forall_forall in Hall. by apply Hall.
Qed.

Lemma under_key path k l :
  under path ((fun ps => (k :: ps.1, ps.2)) <$> l) = under (path ++ [k]) l.
Proof.
  unfold under. induction l as [|[p s] l IH]; [done|].
  cbn. rewrite <- app_assoc. cbn. by f_equal.
Qed.

Lemma under_obj path d : under path (rleaves (JObj d)) = children path d.
Proof.
  induction d as [|[k c] d IH]; [done|].
  rewrite rleaves_cons. unfold under at 1. rewrite fmap_app.
  fold (under path ((fun ps => (k :: ps.1, ps.2)) <$> rleaves c)).
  fold (under path (rleaves (JObj d))).
  by rewrite under_key, IH.
Qed.

Lemma under_nil l : under [] l = l.
Proof.
  unfold under. induction l as [|[p s] l IH]; [done|]. cbn. by f_equal.
Qed.

Lemma under_good path v :
  path ≠ [] → Forall (fun k => dot_free k = true) path →
  nested_ok v = true →
  Forall good_path (under path (rleaves v)).*1.
Proof.
  intros Hne Hpath Hok. unfold under.
  apply Forall_fmap, Forall_fmap.
  eapply Forall_impl; [exact (rleaves_dot_free v Hok)|].
  intros [p s] Hp. cbn in *. split.
  - by destruct path.
  - by apply Forall_app.
Qed.

Lemma join_inj p q :
  good_path p → good_path q → join "." p = join "." q → p = q.
Proof.
  intros Hp Hq Heq.
  rewrite <- (split_dot_join p Hp), <- (split_dot_join q Hq). by rewrite Heq.
Qed.

Lemma enc_app l1 l2 : enc (l1 ++ l2) = enc l1 ++ enc l2.
Proof. apply fmap_app. Qed.

Lemma dict_set_enc q s R :
  good_path q → Forall good_path R.*1 → q ∉ R.*1 →
  dict_set (join "." q) s (enc R) = enc (R ++ [(q, s)]).
Proof.
  intros Hq HR Hfresh. rewrite enc_app. apply dict_set_fresh.
  unfold dict_keys, enc. intros Hin.
  apply list_elem_of_fmap in Hin as ([k v] & Hk & Hin). cbn in Hk.
  apply list_elem_of_fmap in Hin as ([q' s'] & Heq & Hin).
  injection Heq as -> ->. cbn in Hk.
  assert (q' ∈ R.*1) as Hq' by (apply list_elem_of_fmap; by exists (q', s')).
  rewrite Forall_forall in HR.
  apply (join_inj q q' Hq (HR q' Hq')) in Hk. by subst.
Qed.

Lemma dict_update_enc R R2 :
  Forall good_path R.*1 → Forall good_path R2.*1 → NoDup (R ++ R2).*1 →
  dict_update (enc R) (enc R2) = enc (R ++ R2).
Proof.
  revert R. induction R2 as [|[q s] R2 IH]; intros R HR HR2 Hnd.
  - by rewrite app_nil_r.
  - cbn in HR2. apply Forall_cons in HR2 as [Hq HR2].
    unfold dict_update. cbn. fold (enc R2).
    change (fold_left _ (enc R2) ?d) with (dict_update d (enc R2)).
    assert (R ++ (q, s) :: R2 = (R ++ [(q, s)]) ++ R2) as Hassoc
      by (by rewrite <- app_assoc).
    rewrite Hassoc in Hnd |- *.
    assert (NoDup (R ++ [(q, s)]).*1) as Hnd1.
    { rewrite fmap_app in Hnd. by apply NoDup_app in Hnd as [? _]. }
    rewrite dict_set_enc; try done.
    + apply IH; try done. rewrite fmap_app. apply Forall_app. split; [done|].
      cbn. by constructor.
    + rewrite fmap_app in Hnd1. apply NoDup_app in Hnd1 as (_ & Hdisj & _).
      intros Hin. apply (Hdisj q Hin). cbn. apply elem_of_cons. by left.
Qed.

Lemma children_cons path k c d :
  children path ((k, c) :: d)
  = under (path ++ [k]) (rleaves c) ++ children path d.
Proof. reflexivity. Qed.

Lemma collect_fold_enc P path d R :
  (∀ k, child_path P k = join "." (path ++ [k])) →
  Forall (fun k => dot_free k = true) path →
  Forall (fun kv => dot_free kv.1 = true ∧ nested_ok kv.2 = true) d →
  Forall (fun kv => is_obj kv.2 = true → join "." (path ++ [kv.1]) ≠ EmptyString) d →
  Forall (fun kv => flattened kv.2) d →
  Forall good_path R.*1 →
  NoDup (R ++ children path d).*1 →
  fold_left (fun r kv => collect_value kv.2 (child_path P kv.1) r) d (enc R)
  = enc (R ++ children path d).
Proof.
  intros Hchild Hpath. revert R.
  induction d as [|[k c] d IH]; intros R Hok Hobj Hflat HR Hnd.
  - by rewrite app_nil_r.
  - apply Forall_cons in Hok as [[Hk Hc] Hok].
    apply Forall_cons in Hobj as [Hobjc Hobj].
    apply Forall_cons in Hflat as [Hfc Hflat].
    cbn [fst snd] in Hk, Hc, Hobjc, Hfc.
    rewrite children_cons, app_assoc in Hnd |- *.
    assert (good_path (path ++ [k])) as Hgood.
    { split; [by destruct path|]. apply Forall_app. split; [done|].
      by constructor. }
    cbn [fold_left fst snd]. rewrite Hchild.
    rewrite (Hfc (path ++ [k]) R); try done.
    + apply IH; try done.
      rewrite fmap_app. apply Forall_app. split; [done|].
      apply under_good; [by destruct path| |done].
      apply Forall_app. split; [done|]. by constructor.
    + rewrite fmap_app in Hnd. by apply NoDup_app in Hnd as [? _].
Qed.

Lemma flattened_all v : flattened v.
Proof.
  induction v as [s|d IH] using json_ind';
    intros path R Hok Hpath Hnonempty HR Hnd.
  - cbn [collect_value rleaves]. unfold under in *. cbn in Hnd |- *.
    rewrite app_nil_r in *. apply dict_set_enc; try done.
    rewrite fmap_app in Hnd. apply NoDup_app in Hnd as (_ & Hdisj & _).
    intros Hin. apply (Hdisj path Hin). cbn. apply elem_of_cons. by left.
  - pose proof (nested_ok_obj d Hok) as (Hne & Hndk & Hall).
    destruct Hpath as [Hpne Hpdf].
    assert (Forall good_path (under path (rleaves (JObj d))).*1) as Hgood
      by (by apply under_good).
    rewrite under_obj in Hnd, Hgood |- *.
    cbn [collect_value]. change (@nil (string * string)) with (enc []).
    rewrite (collect_fold_enc (join "." path) path d []); try done.
    + cbn [app]. by apply dict_update_enc.
    + intros k. apply child_path_join. right. by apply Hnonempty.
    + apply Forall_forall. intros [k c] _ _. cbn.
      rewrite join_snoc by done. apply string_app_dot_nonempty.
    + cbn [app]. rewrite fmap_app in Hnd. by apply NoDup_app in Hnd as (_ & _ & ?).
Qed.

Lemma merge_all_enc l t :
  Forall good_path l.*1 → merge_all (enc l) t = build l t.
Proof.
  revert t. induction l as [|[p s] l IH]; intros t Hl; [done|].
  cbn in Hl. apply Forall_cons in Hl as [Hp Hl].
  unfold merge_all, build. cbn [enc fmap list_fmap fold_left fst snd].
  unfold merge_key at 2. rewrite split_dot_join by done.
  by apply IH.
Qed.

Lemma catalog_ok_inv data :
  catalog_ok data = true →
  NoDup data.*1
  ∧ Forall (fun kv => dot_free kv.1 = true ∧ nested_ok kv.2 = true) data
  ∧ Forall (fun kv => is_obj kv.2 = true → kv.1 ≠ EmptyString) data.
Proof.
  unfold catalog_ok. intros [Hnd Hall]%andb_prop.
  apply bool_decide_eq_true in Hnd. apply forallb_Forall in Hall.
  split; [done|]. split.
  - eapply Forall_impl; [exact Hall|]. intros kv H.
    apply andb_prop in H as [H _]. by apply andb_prop in H.
  - eapply Forall_impl; [exact Hall|]. intros [k c] H Hobj. cbn in *.
    apply andb_prop in H as [_ H]. rewrite Hobj in H. cbn in H.
    unfold truthy in H. by destruct (decide (k = EmptyString)).
Qed.

(** C2, as amended.  For a catalogue whose keys are distinct at every level
    and free of dots, which holds no empty object below the top level and
    whose empty top-level key, if any, does not hold an object, flattening
    with [collect_all_keys] and merging every (dotted path, value) pair into
    an empty target with the merge loop gives back the catalogue itself,
    key order included. *)
Theorem flatten_merge_roundtrip data :
  catalog_ok data = true →
  merge_all (collect_all_keys data EmptyString) [] = data.
Proof.
  intros (Hnd & Hall & Hobj)%catalog_ok_inv.
  destruct data as [|kv0 data0] eqn:Hdata; [done|]. rewrite <- Hdata in *.
  assert (nested_ok (JObj data) = true) as Hok.
  { cbn [nested_ok]. rewrite !andb_true_iff. split; [split|].
    - by rewrite Hdata.
    - by apply bool_decide_eq_true.
    - apply forallb_Forall. eapply Forall_impl; [exact Hall|].
      intros kv [? ?]. by apply andb_true_iff. }
  assert (Forall good_path (rleaves (JObj data)).*1) as Hgood.
  { apply Forall_fmap.
    pose proof (rleaves_dot_free _ Hok) as Hdf.
    pose proof (rleaves_obj_paths data) as Hne.
    apply Forall_forall. intros ps Hps.
    rewrite Forall_forall in Hdf, Hne. split; [by apply Hne|by apply Hdf]. }
  unfold collect_all_keys. change (@nil (string * string)) with (enc []).
  rewrite (collect_fold_enc EmptyString [] data []); try done.
  - cbn [app]. rewrite <- under_obj, under_nil, merge_all_enc by done.
    rewrite build_children; try done.
    + eapply Forall_impl; [exact Hall|]. by intros kv [_ ?].
    + apply Forall_forall. intros kv _. apply rebuilds_all.
    + intros k _. apply not_elem_of_nil.
  - apply Forall_forall. intros kv _. apply flattened_all.
  - cbn [app]. rewrite <- under_obj, under_nil. by apply rleaves_NoDup.
Qed.

Lemma flatten_merge_roundtrip_witness :
  catalog_ok
    [("nav", JObj [("home", JStr "Start"); ("more", JObj [("faq", JStr "Fragen")])]);
     ("title", JStr "Hallo")] = true
  ∧ merge_all
      (collect_all_keys
         [("nav", JObj [("home", JStr "Start"); ("more", JObj [("faq", JStr "Fragen")])]);
          ("title", JStr "Hallo")] EmptyString) []
    = [("nav", JObj [("home", JStr "Start"); ("more", JObj [("faq", JStr "Fragen")])]);
       ("title", JStr "Hallo")].
Proof.
  split; [vm_compute; reflexivity|].
  apply (flatten_merge_roundtrip
           [("nav", JObj [("home", JStr "Start"); ("more", JObj [("faq", JStr "Fragen")])]);
            ("title", JStr "Hallo")]).
  vm_compute. reflexivity.
Defined.

(** C2 as stated fails: an empty object has no leaf, so flattening drops its
    key and the merge cannot bring it back.  The lookup of the key differs
    before and after, so the two trees differ whatever the key order. *)
Lemma flatten_merge_drops_empty_object :
  ¬ (∀ data : dict json,
       unique_keys (JObj data) = true →
       ∀ q, get_nested_value
              (merge_all (collect_all_keys data EmptyString) []) q
            = get_nested_value data q).
Proof.
  intros H.
  specialize (H [("a", JObj [])] eq_refl "a").
  vm_compute in H. discriminate.
Qed.

(** The other two ways the round trip is lost: a key that holds a dot is
    split by the merge, and an object under the empty top-level key is
    flattened as if it were the catalogue itself. *)
Lemma flatten_merge_splits_dotted_key :
  merge_all (collect_all_keys [("a.b", JStr "x")] EmptyString) []
  = [("a", JObj [("b", JStr "x")])].
Proof. reflexivity. Qed.

Lemma flatten_merge_loses_empty_top_key :
  merge_all (collect_all_keys [("", JObj [("a", JStr "x")])] EmptyString) []
  = [("a", JStr "x")].
Proof. reflexivity. Qed.

(** ** The routing reader *)

Lemma get_locales_absent w :
  routing_ts w = None →
  ∃ w', get_locales_from_routing w = (SysExit 1, w')
        ∧ quiet w w'
        ∧ stdout w' = stdout w +:+ "❌ Error: src/i18n/routing.ts not found" +:+ nl.
Proof.
  intros H. unfold get_locales_from_routing, bind, routing_exists.
  repeat (progress (cbn; rewrite ?H)).
  eexists. split; [done|]. by repeat split.
Qed.

Lemma get_locales_no_array w content :
  routing_ts w = Some content → search_locales content = None →
  ∃ w', get_locales_from_routing w = (SysExit 1, w')
        ∧ quiet w w'
        ∧ stdout w' = stdout w
            +:+ "❌ Error: Could not find locales array in routing.ts" +:+ nl.
Proof.
  intros H Hs.
  unfold get_locales_from_routing, bind, routing_exists, routing_read_text.
  repeat (progress (cbn; rewrite ?H, ?Hs)).
  eexists. split; [done|]. by repeat split.
Qed.

Lemma get_locales_found w content locales_str :
  routing_ts w = Some content → search_locales content = Some locales_str →
  get_locales_from_routing w = (Ok (findall_codes locales_str), w).
Proof.
  intros H Hs.
  unfold get_locales_from_routing, bind, routing_exists, routing_read_text.
  by repeat (progress (cbn; rewrite ?H, ?Hs)).
Qed.

Lemma get_default_locale_ok w content :
  routing_ts w = Some content →
  get_default_locale w = (Ok (configured_default w), w).
Proof.
  intros H. unfold get_default_locale, bind, routing_read_text, configured_default.
  by repeat (progress (cbn; rewrite ?H)).
Qed.

(** ** Effects of the orchestrator, function by function *)

#[local] Instance quiet_preorder : PreOrder quiet.
Proof.
  split; [intros w; apply quiet_refl|intros a b c; apply quiet_trans].
Qed.

#[local] Instance writes_only_preorder allowed : PreOrder (writes_only allowed).
Proof.
  split.
  - intros w. split; [done|]. exists []. by rewrite app_nil_r.
  - intros a b c [Hr1 (n1 & Ho1 & Ha1)] [Hr2 (n2 & Ho2 & Ha2)].
    split; [congruence|]. exists (n1 ++ n2). split.
    + by rewrite Ho2, Ho1, app_assoc.
    + by apply Forall_app.
Qed.

Lemma quiet_writes_only allowed w w' : quiet w w' → writes_only allowed w w'.
Proof.
  intros (Hr & _ & Ho). split; [done|]. exists []. by rewrite app_nil_r.
Qed.

Lemma writes_only_mono (P Q : string → Prop) w w' :
  (∀ n, P n → Q n) → writes_only P w w' → writes_only Q w w'.
Proof.
  intros HPQ [Hr (new & Ho & Hall)]. split; [done|].
  exists new. split; [done|]. eapply Forall_impl; [exact Hall|done].
Qed.

Lemma for_each_ok {A S} (R : World → World → Prop) (Q : S → S → Prop)
    `{!PreOrder R, !PreOrder Q} (xs : list A) (body : S → A → M S) :
  (∀ s x w, x ∈ xs → ∃ s' w', body s x w = (Ok s', w') ∧ R w w' ∧ Q s s') →
  ∀ s w, ∃ s' w', for_each xs body s w = (Ok s', w') ∧ R w w' ∧ Q s s'.
Proof.
  induction xs as [|x xs IH]; intros Hbody s w.
  - exists s, w. by repeat split.
  - destruct (Hbody s x w) as (s1 & w1 & Hx & HR1 & HQ1);
      [apply elem_of_cons; by left|].
    cbn [for_each]. rewrite (bind_ok _ _ _ _ _ Hx).
    destruct (IH (fun s x w Hin => Hbody s x w
                    (proj2 (elem_of_cons _ _ _) (or_intror Hin))) s1 w1)
      as (s2 & w2 & Hxs & HR2 & HQ2).
    exists s2, w2. repeat split; [done|by etrans|by etrans].
Qed.

Lemma load_hashes_ok w : load_hashes w = (Ok (ledger w), w).
Proof.
  unfold load_hashes, ledger, bind, file_exists, try_except, json_load.
  destruct (messages w !! HASHES_FILE) as [[h|]|] eqn:E;
    by repeat (progress (cbn; rewrite ?E)).
Qed.

Lemma load_target_ok name w :
  ∃ data, try_except (json_load name) (ret []) w = (Ok data, w).
Proof.
  unfold try_except, json_load.
  destruct (messages w !! name) as [[d|]|]; by eexists.
Qed.

Lemma json_dump_ok name data w :
  ∃ w', json_dump name data w = (Ok tt, w')
        ∧ writes_only (fun n => n = name) w w'
        ∧ messages w' = <[name := Parsed data]> (messages w).
Proof.
  eexists. split; [done|]. split; [|done].
  split; [done|]. exists [name]. split; [done|]. by constructor.
Qed.

#[local] Instance keys_grow_preorder : PreOrder keys_grow.
Proof. split; [by intros h k|intros a b c H1 H2 k Hk; by apply H2, H1]. Qed.

Lemma check_changed_ok hashes changed_keys item w :
  ∃ hashes' changed_keys' w',
    check_changed (hashes, changed_keys) item w
    = (Ok (hashes', changed_keys'), w')
    ∧ quiet w w' ∧ keys_grow hashes hashes'.
Proof.
  destruct item as [key_path value]. unfold check_changed.
  destruct (differs _ _).
  - destruct (bool_decide _).
    + match goal with
      | |- context [bind (print ?s) _] =>
          destruct (print_ok s w) as (w1 & Hp & Hq)
      end.
      unfold bind at 1. unfold bind at 1. rewrite Hp. cbn.
      eexists _, _, w1. split; [done|]. split; [done|].
      intros k Hk. apply dict_keys_set. by right.
    + cbn. eexists _, _, w. split; [done|]. split; [done|].
      intros k Hk. apply dict_keys_set. by right.
  - by exists hashes, changed_keys, w.
Qed.

Ltac step_print :=
  match goal with
  | |- context [bind (print ?s) ?k ?w] =>
      let w' := fresh "w" in
      let Hp := fresh "Hp" in
      let Hq := fresh "Hq" in
      destruct (print_ok s w) as (w' & Hp & Hq);
      rewrite (bind_ok _ _ _ _ _ Hp); clear Hp
  | |- context [bind (print_end ?s) ?k ?w] =>
      let w' := fresh "w" in
      let Hp := fresh "Hp" in
      let Hq := fresh "Hq" in
      destruct (print_end_ok s w) as (w' & Hp & Hq);
      rewrite (bind_ok _ _ _ _ _ Hp); clear Hp
  end.

Ltac last_print :=
  match goal with
  | |- context [print ?s ?w] =>
      let w' := fresh "w" in
      let Hp := fresh "Hp" in
      let Hq := fresh "Hq" in
      destruct (print_ok s w) as (w' & Hp & Hq); rewrite Hp; clear Hp
  end.

#[local] Instance any_state_preorder {S} : PreOrder (fun _ _ : S => True).
Proof. by split. Qed.

Lemma translate_batch_ok env client dl src batch st w :
  ∃ st' w',
    for_each batch (translate_entry env client dl src) st w = (Ok st', w')
    ∧ quiet w w'.
Proof.
  destruct (for_each_ok quiet (fun _ _ => True) batch
              (translate_entry env client dl src)) with (s := st) (w := w)
    as (st' & w' & Hrun & Hq & _).
  - intros [target total] [[full_path value] why] w0 _.
    destruct (translate_entry_ok env client dl src target total full_path
                value why w0) as (translated & w1 & He & _ & Hq).
    by eexists _, w1.
  - by exists st', w'.
Qed.

Lemma translate_locale_ok env client source_lang_code src_keys hashes
    changed_keys total target_locale w :
  ∃ total' w',
    translate_locale env client source_lang_code src_keys hashes changed_keys
      total target_locale w = (Ok total', w')
    ∧ writes_only (fun n => n = locale_json target_locale) w w'.
Proof.
  unfold translate_locale.
  destruct (negb (truthy_opt (dict_get target_locale DEEPL_LANG_CODES))).
  { step_print. eexists _, _. split; [done|]. by apply quiet_writes_only. }
  destruct (load_target_ok (locale_json target_locale) w) as (target_data & Hl).
  rewrite (bind_ok _ _ _ _ _ Hl).
  destruct (find_missing_or_changed src_keys target_data hashes)
    as [|entry batch] eqn:Hbatch.
  { step_print. eexists _, _. split; [done|]. by apply quiet_writes_only. }
  step_print.
  assert (∃ w1, (if bool_decide (0 < changed_keys)%nat
                 then print (" (including " +:+ pretty changed_keys +:+ " changed)")
                 else print EmptyString) w0 = (Ok tt, w1) ∧ quiet w0 w1)
    as (w1 & Hp1 & Hq1) by (destruct (bool_decide _); apply print_ok).
  rewrite (bind_ok _ _ _ _ _ Hp1).
  match goal with
  | |- context [bind (for_each ?b ?f ?s) _ w1] =>
      destruct (translate_batch_ok env client
                  (default EmptyString (dict_get target_locale DEEPL_LANG_CODES))
                  source_lang_code b s w1) as (st' & w2 & Hrun & Hq2)
  end.
  rewrite (bind_ok _ _ _ _ _ Hrun).
  destruct (json_dump_ok (locale_json target_locale) st'.1 w2)
    as (w3 & Hd & Hw3 & _).
  rewrite (bind_ok _ _ _ _ _ Hd).
  step_print.
  eexists _, _. split; [done|].
  etrans; [apply quiet_writes_only; exact Hq|].
  etrans; [apply quiet_writes_only; exact Hq1|].
  etrans; [apply quiet_writes_only; exact Hq2|].
  etrans; [exact Hw3|]. by apply quiet_writes_only.
Qed.

Ltac absorb :=
  repeat match goal with
         | H1 : quiet ?a ?b, H2 : quiet ?b ?c |- _ =>
             let H := fresh "Hq" in
             pose proof (quiet_trans _ _ _ H1 H2) as H; clear H1 H2
         end.

#[local] Instance hashes_grow_preorder : PreOrder hashes_grow.
Proof.
  split; [by intros s k|].
  intros a b c H1 H2 k Hk. by apply H2, H1.
Qed.

Lemma file_exists_eq name w :
  file_exists name w = (Ok (bool_decide (is_Some (messages w !! name))), w).
Proof. reflexivity. Qed.

Lemma get_all_namespaces_ok w :
  ∃ namespaces w',
    get_all_namespaces w = (Ok namespaces, w') ∧ quiet w w'
    ∧ (namespaces = [] ∨ namespaces = ["messages"]).
Proof.
  unfold get_all_namespaces.
  rewrite (bind_ok _ _ _ _ _ (file_exists_eq _ w)).
  destruct (bool_decide _); cbn [negb].
  - exists ["messages"], w. repeat split; by right.
  - step_print. exists [], w0. repeat split; try apply Hq. by left.
Qed.

(** The namespace loop body: it fails on a source catalogue that is not
    JSON, and otherwise grows the ledger and writes target catalogues
    only. *)
Lemma process_namespace_spec env client default_locale source_lang_code
    target_locales hashes total changed_keys ns w :
  (messages w !! locale_json default_locale = Some Malformed
   ∧ ∃ w', process_namespace env client default_locale source_lang_code
             target_locales (hashes, total, changed_keys) ns w
           = (Raised JSONDecodeError, w')
           ∧ quiet w w')
  ∨ (∃ hashes' total' changed_keys' w',
       process_namespace env client default_locale source_lang_code
         target_locales (hashes, total, changed_keys) ns w
       = (Ok (hashes', total', changed_keys'), w')
       ∧ keys_grow hashes hashes'
       ∧ writes_only
           (fun n => ∃ loc, loc ∈ target_locales ∧ n = locale_json loc) w w').
Proof.
  unfold process_namespace.
  rewrite (bind_ok _ _ _ _ _ (file_exists_eq _ w)).
  destruct (messages w !! locale_json default_locale) as [[src_data|]|] eqn:E.
  - right. rewrite bool_decide_true by by eexists. cbn [negb].
    assert (json_load (locale_json default_locale) w = (Ok src_data, w)) as Hl
      by (unfold json_load; by rewrite E).
    rewrite (bind_ok _ _ _ _ _ Hl).
    do 2 step_print. absorb.
    destruct (for_each_ok quiet hashes_grow
                (collect_all_keys src_data EmptyString) check_changed)
      with (s := (hashes, changed_keys)) (w := w1)
      as ([hashes' changed_keys'] & w2 & Hrun & Hq2 & Hgrow).
    { intros [h n] item w' _.
      destruct (check_changed_ok h n item w')
        as (h' & n' & w'' & Hc & Hq' & Hg).
      by exists (h', n'), w''. }
    rewrite (bind_ok _ _ _ _ _ Hrun). absorb.
    destruct (for_each_ok
                (writes_only
                   (fun n => ∃ loc, loc ∈ target_locales ∧ n = locale_json loc))
                (fun _ _ : nat => True) target_locales
                (translate_locale env client source_lang_code
                   (collect_all_keys src_data EmptyString) hashes' changed_keys'))
      with (s := total) (w := w2)
      as (total' & w3 & Hloop & Hw3 & _).
    { intros t loc w' Hloc.
      destruct (translate_locale_ok env client source_lang_code
                  (collect_all_keys src_data EmptyString) hashes' changed_keys'
                  t loc w') as (t' & w'' & Ht & Hw).
      exists t', w''. split; [done|]. split; [|done].
      eapply writes_only_mono; [|exact Hw]. intros n ->. by exists loc. }
    rewrite (bind_ok _ _ _ _ _ Hloop). step_print.
    exists hashes', total', changed_keys', w4. split; [done|]. split; [done|].
    etrans; [apply quiet_writes_only; eassumption|].
    etrans; [exact Hw3|]. by apply quiet_writes_only.
  - left. split; [done|].
    rewrite bool_decide_true by by eexists. cbn [negb].
    exists w. split; [|done].
    unfold bind, json_load. by rewrite E.
  - right. rewrite bool_decide_false by (by intros [? ?]). cbn [negb].
    step_print. exists hashes, total, changed_keys, w0.
    split; [done|]. split; [done|]. by apply quiet_writes_only.
Qed.

Lemma quiet_ledger w w' : quiet w w' → ledger w' = ledger w.
Proof. intros (_ & Hm & _). unfold ledger. by rewrite Hm. Qed.

Lemma quiet_configured_default w w' :
  quiet w w' → configured_default w' = configured_default w.
Proof. intros (Hr & _). unfold configured_default. by rewrite Hr. Qed.

Lemma main_spec env client w :
  ∃ r w',
    main env client w = (r, w')
    ∧ writes_only (allowed_write w) w w'
    ∧ keys_grow (ledger w) (ledger w')
    ∧ match r with
      | Ok _ => True
      | SysExit code => code = 1 ∧ routing_unusable w
      | Raised e =>
          e = JSONDecodeError
          ∧ messages w !! locale_json (configured_default w) = Some Malformed
      end.
Proof.
  unfold main. step_print.
  assert (∀ w', quiet w w' → keys_grow (ledger w) (ledger w')) as Hsame.
  { intros w' Hq'. rewrite (quiet_ledger _ _ Hq'). reflexivity. }
  destruct (routing_ts w) as [content|] eqn:Hrouting.
  2:{ destruct (get_locales_absent w0) as (w1 & Hg & Hq1 & _).
      { destruct Hq as (-> & _). done. }
      unfold bind at 1. rewrite Hg. absorb.
      exists (SysExit 1), w1. split; [done|].
      split; [by apply quiet_writes_only|]. split; [by apply Hsame|].
      split; [done|]. by left. }
  assert (routing_ts w0 = Some content) as Hrouting0
    by (destruct Hq as (-> & _); done).
  destruct (search_locales content) as [locales_str|] eqn:Hsearch.
  2:{ destruct (get_locales_no_array w0 content Hrouting0 Hsearch)
        as (w1 & Hg & Hq1 & _).
      unfold bind at 1. rewrite Hg. absorb.
      exists (SysExit 1), w1. split; [done|].
      split; [by apply quiet_writes_only|]. split; [by apply Hsame|].
      split; [done|]. right. by exists content. }
  rewrite (bind_ok _ _ _ _ _ (get_locales_found w0 content locales_str
                                 Hrouting0 Hsearch)).
  rewrite (bind_ok _ _ _ _ _ (get_default_locale_ok w0 content Hrouting0)).
  rewrite (quiet_configured_default _ _ Hq).
  do 2 step_print. absorb.
  destruct (filter (fun loc => loc ≠ configured_default w)
              (findall_codes locales_str)) as [|loc0 locs] eqn:Htargets.
  { last_print. absorb. exists (Ok tt), w3. split; [done|].
    split; [by apply quiet_writes_only|]. split; [by apply Hsame|done]. }
  rewrite <- Htargets. do 2 step_print. absorb.
  destruct (get_all_namespaces_ok w4) as (namespaces & w5 & Hns & Hq5 & Hcases).
  rewrite (bind_ok _ _ _ _ _ Hns). absorb.
  destruct Hcases as [->| ->].
  { last_print. absorb. exists (Ok tt), w6. split; [done|].
    split; [by apply quiet_writes_only|]. split; [by apply Hsame|done]. }
  rewrite (bind_ok _ _ _ _ _ (load_hashes_ok w5)).
  assert (quiet w w5) as Hqw by assumption.
  rewrite (quiet_ledger _ _ Hqw).
  cbn [for_each].
  destruct (process_namespace_spec env client (configured_default w)
              (upper (configured_default w))
              (filter (fun loc => loc ≠ configured_default w)
                 (findall_codes locales_str))
              (ledger w) 0%nat 0%nat "messages" w5)
    as [(Hbad & w6 & Hrun & Hq6)|(hashes' & total' & changed' & w6 & Hrun & Hgrow & Hw6)].
  - unfold bind at 1. unfold bind at 1. rewrite Hrun.
    assert (messages w5 = messages w) as Hm5 by apply Hqw.
    absorb.
    exists (Raised JSONDecodeError), w6. split; [done|].
    split; [by apply quiet_writes_only|]. split; [by apply Hsame|].
    split; [done|]. by rewrite <- Hm5.
  - unfold bind at 1. unfold bind at 1. rewrite Hrun. cbn [ret].
    unfold save_hashes.
    destruct (json_dump_ok HASHES_FILE hashes' w6) as (w7 & Hd & Hw7 & Hm7).
    rewrite (bind_ok _ _ _ _ _ Hd).
    do 3 step_print. last_print. absorb.
    assert (quiet w7 w11) as Hq711 by assumption.
    exists (Ok tt), w11. split; [done|]. split; [|split; [|done]].
    + etrans; [apply quiet_writes_only; exact Hqw|].
      etrans; [|apply quiet_writes_only; exact Hq711].
      etrans.
      * eapply writes_only_mono; [|exact Hw6].
        intros n (loc & Hloc & ->). right. exists loc.
        apply list_elem_of_filter in Hloc as [Hne Hin].
        split; [done|]. split; [done|]. by exists content, locales_str.
      * eapply writes_only_mono; [|exact Hw7]. intros n ->. by left.
    + rewrite (quiet_ledger _ _ Hq711). unfold ledger at 2.
      rewrite Hm7, lookup_insert_eq. exact Hgrow.
Qed.

(** ** The whole run *)

Lemma script_spec env w :
  ∃ r w',
    script env w = (r, w')
    ∧ writes_only (allowed_write w) w w'
    ∧ keys_grow (ledger w) (ledger w')
    ∧ match r with
      | Ok _ => True
      | SysExit code =>
          code = 1
          ∧ (deepl_installed env = false
             ∨ truthy_opt (DEEPL_API_KEY env) = false
             ∨ routing_unusable w)
      | Raised e =>
          e = JSONDecodeError
          ∧ messages w !! locale_json (configured_default w) = Some Malformed
      end.
Proof.
  unfold script.
  destruct (deepl_installed env) eqn:Hinst; cbn [negb].
  2:{ do 2 step_print. absorb. eexists (SysExit 1), w1. split; [done|].
      split; [by apply quiet_writes_only|]. split.
      - by rewrite (quiet_ledger w w1).
      - split; [done|]. by left. }
  destruct (truthy_opt (DEEPL_API_KEY env)) eqn:Hkey; cbn [negb].
  2:{ do 2 step_print. absorb. eexists (SysExit 1), w1. split; [done|].
      split; [by apply quiet_writes_only|]. split.
      - by rewrite (quiet_ledger w w1).
      - split; [done|]. right. by left. }
  match goal with
  | |- context [main env ?client w] =>
      destruct (main_spec env client w) as (r & w' & Hmain & Hw & Hgrow & Hr)
  end.
  exists r, w'. split; [done|]. split; [done|]. split; [done|].
  destruct r as [[]|code|e]; [done| |done].
  destruct Hr as [-> Hr]. split; [done|]. right. by right.
Qed.

Lemma str_length_app (a b : string) :
  String.length (a +:+ b) = (String.length a + String.length b)%nat.
Proof.
  induction a as [|x a IH]; [done|].
  rewrite str_app_cons. cbn [String.length]. by rewrite IH.
Qed.

Lemma str_app_inj_r (a b s : string) : a +:+ s = b +:+ s → a = b.
Proof.
  revert b. induction a as [|x a IH]; intros [|y b] H.
  - done.
  - apply (f_equal String.length) in H.
    rewrite str_app_nil, (str_length_app (String y b) s) in H.
    cbn [String.length] in H. lia.
  - apply (f_equal String.length) in H.
    rewrite str_app_nil, (str_length_app (String x a) s) in H.
    cbn [String.length] in H. lia.
  - rewrite !str_app_cons in H. injection H as -> H. f_equal. by apply IH.
Qed.

Lemma locale_json_inj (a b : string) : locale_json a = locale_json b → a = b.
Proof. apply str_app_inj_r. Qed.

Lemma match_default_at_two s code :
  match_default_at s = Some code →
  ∃ a b, code = String a (String b EmptyString).
Proof.
  unfold match_default_at. intros H.
  apply bind_Some in H as (s1 & _ & H).
  apply bind_Some in H as (s2 & _ & H).
  apply bind_Some in H as (s3 & _ & H).
  destruct s3 as [|a [|b [|q s3]]]; try done.
  destruct (lower_az a && lower_az b && bool_decide (q = "'"%char)); [|done].
  injection H as <-. by exists a, b.
Qed.

Lemma search_default_two s code :
  search_default s = Some code →
  ∃ a b, code = String a (String b EmptyString).
Proof.
  induction s as [|c s IH]; cbn [search_default].
  - destruct (match_default_at EmptyString) eqn:E; [|done].
    intros [= <-]. by eapply match_default_at_two.
  - destruct (match_default_at (String c s)) eqn:E.
    + intros [= <-]. by eapply match_default_at_two.
    + exact IH.
Qed.

Lemma configured_default_two w :
  ∃ a b, configured_default w = String a (String b EmptyString).
Proof.
  unfold configured_default.
  destruct (routing_ts w) as [content|]; [|by eexists _, _].
  destruct (search_default content) eqn:E; [|by eexists _, _].
  by eapply search_default_two.
Qed.

Lemma allowed_write_not_source w name :
  allowed_write w name → name ≠ locale_json (configured_default w).
Proof.
  intros [->|(loc & -> & Hne & _)] Heq.
  - destruct (configured_default_two w) as (a & b & Hd).
    rewrite Hd in Heq. discriminate.
  - by apply locale_json_inj in Heq.
Qed.

(** C9.  Every key path of the ledger a run loads ([ledger w], what
    [load_hashes] returns) is a key path of the ledger the files hold when
    the run is over: the ledger saved at the end of the run when it gets
    there, the untouched ledger file otherwise. *)
Theorem ledger_never_shrinks env w k :
  k ∈ dict_keys (ledger w) → k ∈ dict_keys (ledger (script env w).2).
Proof.
  destruct (script_spec env w) as (r & w' & Hrun & _ & Hgrow & _).
  rewrite Hrun. apply Hgrow.
Qed.

Lemma ledger_never_shrinks_witness :
  "retired.key"
  ∈ dict_keys
      (ledger
         (sample_world
            (Some "locales: ['de', 'en'], defaultLocale: 'de'")
            [("de.json", Parsed [("title", JStr "Hallo")]);
             (HASHES_FILE, Parsed [("retired.key", JStr "0a1b2c3d")])]))
  ∧ "retired.key"
    ∈ dict_keys
        (ledger
           (script (sample_env failing_service)
              (sample_world
                 (Some "locales: ['de', 'en'], defaultLocale: 'de'")
                 [("de.json", Parsed [("title", JStr "Hallo")]);
                  (HASHES_FILE, Parsed [("retired.key", JStr "0a1b2c3d")])])).2).
Proof.
  assert ("retired.key"
          ∈ dict_keys
              (ledger
                 (sample_world
                    (Some "locales: ['de', 'en'], defaultLocale: 'de'")
                    [("de.json", Parsed [("title", JStr "Hallo")]);
                     (HASHES_FILE, Parsed [("retired.key", JStr "0a1b2c3d")])])))
    as Hin by (vm_compute; apply list_elem_of_singleton; reflexivity).
  split; [exact Hin|].
  exact (ledger_never_shrinks (sample_env failing_service) _ _ Hin).
Defined.

(** C10.  The names a run opens for writing are the ledger and catalogues
    of locale codes that the routing file lists and that differ from the
    default locale; the catalogue of the default locale is not among
    them. *)
Theorem run_writes_targets_and_ledger_only env w :
  ∃ new,
    opened_for_write (script env w).2 = opened_for_write w ++ new
    ∧ Forall (allowed_write w) new
    ∧ locale_json (configured_default w) ∉ new.
Proof.
  destruct (script_spec env w) as (r & w' & Hrun & [_ (new & Ho & Hall)] & _).
  rewrite Hrun. exists new. split; [done|]. split; [done|].
  intros Hin. rewrite Forall_forall in Hall.
  by apply (allowed_write_not_source w _ (Hall _ Hin)).
Qed.




Lemma print_eq s w :
  print s w
  = (Ok tt,
     {| routing_ts := routing_ts w; messages := messages w;
        api_calls := api_calls w; stdout := stdout w +:+ s +:+ nl;
        opened_for_write := opened_for_write w |}).
Proof. reflexivity. Qed.




(** ** Change detection *)

Lemma get_hash_length text : String.length (get_hash text) = 8%nat.
Proof.
  unfold get_hash, MD5.hexdigest.
  generalize (MD5.digest_state (bytes_of_string text)). intros st.
  reflexivity.
Qed.

Lemma get_hash_truthy text : truthy (get_hash text) = true.
Proof.
  pose proof (get_hash_length text) as Hlen. unfold truthy.
  destruct (decide (get_hash text = EmptyString)) as [Heq|]; [|done].
  rewrite Heq in Hlen. discriminate.
Qed.

(** The test at lines 260-261 looks at the presence of a ledger entry, not
    at a hash mismatch: a source key found in the target and whose stored
    hash equals the hash of its current value is put in the batch. *)
Lemma unchanged_present_key_is_batched src_keys target_data hashes key_path value :
  (key_path, value) ∈ src_keys →
  is_Some (get_nested_value target_data key_path) →
  dict_get key_path hashes = Some (JStr (get_hash value)) →
  (key_path, value, changed)
  ∈ find_missing_or_changed src_keys target_data hashes.
Proof.
  intros Hin [tv Htv] Hhash. unfold find_missing_or_changed.
  generalize (@nil (string * string * reason)).
  induction src_keys as [|item items IH]; intros acc.
  - by apply elem_of_nil in Hin.
  - cbn [fold_left]. apply elem_of_cons in Hin as [<-|Hin].
    + apply fold_classify_keeps. unfold classify. rewrite Htv, Hhash.
      cbn [truthy_value]. rewrite get_hash_truthy.
      apply elem_of_app. right. by apply list_elem_of_singleton.
    + by apply IH.
Qed.

(** C1, the code at a failing input.  The source value "Hallo" has the hash
    the ledger stores and the English catalogue already holds the key; the
    run nevertheless sends the text to the service and overwrites the
    existing translation with the answer. *)
Theorem unchanged_key_is_retranslated :
  let w :=
    sample_world (Some "locales: ['de', 'en'], defaultLocale: 'de'")
      [("de.json", Parsed [("title", JStr "Hallo")]);
       ("en.json", Parsed [("title", JStr "Hello")]);
       (HASHES_FILE, Parsed [("title", JStr "d1bf9329")])] in
  let w' := (script (sample_env bracket_service) w).2 in
  dict_get "title" (ledger w) = Some (JStr (get_hash "Hallo"))
  ∧ get_nested_value [("title", JStr "Hello")] "title" = Some (JStr "Hello")
  ∧ api_calls w' = [build_params "Hallo" "EN-US" (Some "DE")]
  ∧ messages w' !! locale_json "en" = Some (Parsed [("title", JStr "[Hallo]")])
  ∧ ledger w' = ledger w.
Proof. vm_compute. repeat split. Qed.

(** * Further properties of the script *)

(** ** Key paths and their parts *)

Lemma join_cons_char c h t :
  join "." (String c h :: t) = String c (join "." (h :: t)).
Proof. by destruct t. Qed.

Lemma join_split_dot s : join "." (split_dot s) = s.
Proof.
  induction s as [|c s IH]; [done|]. cbn [split_dot].
  pose proof (split_dot_nonempty s) as Hne.
  destruct (decide (c = "."%char)) as [->|Hc].
  - destruct (split_dot s) as [|h t] eqn:E; [done|].
    change (join "." (EmptyString :: h :: t))
      with (EmptyString +:+ "." +:+ join "." (h :: t)).
    by rewrite IH.
  - destruct (split_dot s) as [|h t] eqn:E; [done|].
    by rewrite join_cons_char, IH.
Qed.

(** X1.  Splitting a key path on dots loses nothing: joining the parts with
    dots gives the path back, so two different key paths never address the
    same sequence of parts in [get_nested_value] or in the merge loop. *)
Theorem split_dot_faithful s :
  join "." (split_dot s) = s
  ∧ ∀ s', split_dot s = split_dot s' → s = s'.
Proof.
  split; [apply join_split_dot|].
  intros s' Heq. rewrite <- (join_split_dot s), <- (join_split_dot s').
  by rewrite Heq.
Qed.

(** ** Merging and looking up *)

(** X2.  Whatever the target catalogue holds, after the merge loop has set a
    key path to a value, [get_nested_value] at that key path finds exactly
    that value. *)
Theorem merge_then_lookup full_path translated target_data :
  get_nested_value (merge_key full_path translated target_data) full_path
  = Some (JStr translated).
Proof. apply descend_set_path_same, split_dot_nonempty. Qed.

Lemma dict_set_set {V} (k : string) (v1 v2 : V) (d : dict V) :
  dict_set k v2 (dict_set k v1 d) = dict_set k v2 d.
Proof.
  induction d as [|[k' v'] d IH]; cbn [dict_set].
  - by rewrite decide_True.
  - destruct (decide (k' = k)) as [->|Hne]; cbn [dict_set].
    + by rewrite decide_True.
    + by rewrite decide_False, IH.
Qed.

Lemma set_path_twice parts s1 s2 t :
  set_path parts s2 (set_path parts s1 t) = set_path parts s2 t.
Proof.
  revert t. induction parts as [|a parts IH]; intros t; [done|].
  destruct parts as [|a2 parts].
  - cbn [set_path]. apply dict_set_set.
  - rewrite !set_path_cons, dict_get_set_eq, IH. apply dict_set_set.
Qed.

(** X3.  Merging twice at the same key path keeps the second value only:
    the result is the one of the second merge alone, key order included. *)
Theorem merge_last_wins full_path s1 s2 target_data :
  merge_key full_path s2 (merge_key full_path s1 target_data)
  = merge_key full_path s2 target_data.
Proof. apply set_path_twice. Qed.

(** ** What the flattened catalogue holds *)

Lemma catalog_ok_nested data :
  catalog_ok data = true → data ≠ [] → nested_ok (JObj data) = true.
Proof.
  intros (Hnd & Hall & _)%catalog_ok_inv Hne.
  cbn [nested_ok]. rewrite !andb_true_iff. split; [split|].
  - by destruct data.
  - by apply bool_decide_eq_true.
  - apply forallb_Forall. eapply Forall_impl; [exact Hall|].
    intros kv [? ?]. by apply andb_true_iff.
Qed.

Lemma rleaves_good data :
  nested_ok (JObj data) = true → Forall good_path (rleaves (JObj data)).*1.
Proof.
  intros Hok. apply Forall_fmap.
  pose proof (rleaves_dot_free _ Hok) as Hdf.
  pose proof (rleaves_obj_paths data) as Hne.
  apply Forall_forall. intros ps Hps.
  rewrite Forall_forall in Hdf, Hne. split; [by apply Hne|by apply Hdf].
Qed.

Lemma collect_all_keys_enc data :
  catalog_ok data = true →
  collect_all_keys data EmptyString = enc (rleaves (JObj data)).
Proof.
  intros Hcat. destruct (decide (data = [])) as [->|Hne]; [done|].
  pose proof (catalog_ok_nested data Hcat Hne) as Hok.
  apply catalog_ok_inv in Hcat as (Hnd & Hall & Hobj).
  unfold collect_all_keys. change (@nil (string * string)) with (enc []).
  rewrite (collect_fold_enc EmptyString [] data []); try done.
  - apply Forall_forall. intros kv _. apply flattened_all.
  - cbn [app]. rewrite <- under_obj, under_nil. by apply rleaves_NoDup.
Qed.

Lemma dict_get_NoDup {V} (k : string) (v : V) (d : dict V) :
  NoDup d.*1 → (k, v) ∈ d → dict_get k d = Some v.
Proof.
  induction d as [|[k' v'] d IH]; intros Hnd Hin.
  - by apply elem_of_nil in Hin.
  - cbn in Hnd. apply NoDup_cons in Hnd as [Hk' Hnd].
    cbn [dict_get]. apply elem_of_cons in Hin as [[= -> ->]|Hin].
    + by rewrite decide_True.
    + rewrite decide_False; [by apply IH|].
      intros ->. apply Hk'. apply list_elem_of_fmap. by exists (k, v).
Qed.

Lemma dict_get_elem {V} (k : string) (v : V) (d : dict V) :
  dict_get k d = Some v → (k, v) ∈ d.
Proof.
  induction d as [|[k' v'] d IH]; cbn [dict_get]; [done|].
  destruct (decide (k' = k)) as [->|Hne].
  - intros [= ->]. apply elem_of_cons. by left.
  - intros H. apply elem_of_cons. right. by apply IH.
Qed.

Lemma rleaves_obj_elem d p v :
  (p, v) ∈ rleaves (JObj d)
  ↔ ∃ k c q, (k, c) ∈ d ∧ p = k :: q ∧ (q, v) ∈ rleaves c.
Proof.
  induction d as [|[k c] d IH].
  - split; [by intros ?%elem_of_nil|].
    intros (k & c & q & Hin & _). by apply elem_of_nil in Hin.
  - rewrite rleaves_cons, elem_of_app, IH, list_elem_of_fmap. split.
    + intros [([q v'] & [= -> ->] & Hq)|(k' & c' & q & Hin & -> & Hq)].
      * exists k, c, q. split; [apply elem_of_cons; by left|done].
      * exists k', c', q. split; [apply elem_of_cons; by right|done].
    + intros (k' & c' & q & Hin & -> & Hq).
      apply elem_of_cons in Hin as [[= -> ->]|Hin].
      * left. by exists (q, v).
      * right. by exists k', c', q.
Qed.

Lemma descend_rleaves c p v :
  unique_keys c = true → (p, v) ∈ rleaves c → descend p c = Some (JStr v).
Proof.
  revert p. induction c as [s|d IH] using json_ind'; intros p Huk Hin.
  - cbn in Hin. apply list_elem_of_singleton in Hin as [= -> ->]. done.
  - apply rleaves_obj_elem in Hin as (k & c & q & Hkc & -> & Hq).
    cbn [unique_keys] in Huk. apply andb_prop in Huk as [Hnd Hall].
    apply bool_decide_eq_true in Hnd. apply forallb_Forall in Hall.
    cbn [descend]. rewrite (dict_get_NoDup k c d Hnd Hkc).
    rewrite Forall_forall in IH, Hall.
    exact (IH (k, c) Hkc q (Hall (k, c) Hkc) Hq).
Qed.

Lemma rleaves_descend c p v :
  descend p c = Some (JStr v) → (p, v) ∈ rleaves c.
Proof.
  revert c. induction p as [|k q IH]; intros c.
  - cbn. intros [= ->]. cbn. by apply list_elem_of_singleton.
  - cbn [descend]. destruct c as [s|d]; [done|].
    destruct (dict_get k d) as [c|] eqn:Hget; [|done].
    intros Hq. apply rleaves_obj_elem.
    exists k, c, q. split; [by apply dict_get_elem|]. split; [done|by apply IH].
Qed.

Lemma nested_ok_unique v : nested_ok v = true → unique_keys v = true.
Proof.
  induction v as [s|d IH] using json_ind'; [done|].
  intros (_ & Hnd & Hall)%nested_ok_obj.
  cbn [unique_keys]. apply andb_true_iff. split.
  - by apply bool_decide_eq_true.
  - apply forallb_Forall, Forall_forall. intros kv Hkv.
    rewrite Forall_forall in IH, Hall. apply (IH kv Hkv). by apply (Hall kv Hkv).
Qed.

Lemma catalog_ok_unique data :
  catalog_ok data = true → unique_keys (JObj data) = true.
Proof.
  intros (Hnd & Hall & _)%catalog_ok_inv.
  cbn [unique_keys]. apply andb_true_iff. split.
  - by apply bool_decide_eq_true.
  - apply forallb_Forall, Forall_forall. intros kv Hkv.
    rewrite Forall_forall in Hall. apply nested_ok_unique. by apply (Hall kv Hkv).
Qed.

(** X4.  For a catalogue with dot-free distinct keys, no empty nested object
    and no object under the empty top-level key, the flattened catalogue is
    exactly the set of string leaves [get_nested_value] reaches: a pair
    (key path, value) is an item of [collect_all_keys] if and only if the
    lookup of the key path in the catalogue gives that string. *)
Theorem flattened_keys_are_lookups data key_path value :
  catalog_ok data = true →
  (key_path, value) ∈ collect_all_keys data EmptyString
  ↔ get_nested_value data key_path = Some (JStr value).
Proof.
  intros Hcat. rewrite (collect_all_keys_enc data Hcat).
  unfold get_nested_value. split.
  - intros Hin. apply list_elem_of_fmap in Hin as ([p v] & [= -> ->] & Hin).
    destruct (decide (data = [])) as [->|Hne]; [by apply elem_of_nil in Hin|].
    pose proof (rleaves_good data (catalog_ok_nested data Hcat Hne)) as Hgood.
    rewrite Forall_forall in Hgood.
    rewrite split_dot_join.
    + apply descend_rleaves; [by apply catalog_ok_unique|done].
    + apply Hgood. apply list_elem_of_fmap. by exists (p, v).
  - intros Hd%rleaves_descend. apply list_elem_of_fmap.
    exists (split_dot key_path, value). split; [|done].
    cbn. by rewrite join_split_dot.
Qed.

Lemma flattened_keys_are_lookups_witness :
  catalog_ok [("nav", JObj [("home", JStr "Start")]); ("title", JStr "Hallo")]
  = true
  ∧ (("nav.home", "Start")
     ∈ collect_all_keys
         [("nav", JObj [("home", JStr "Start")]); ("title", JStr "Hallo")]
         EmptyString
     ↔ get_nested_value
         [("nav", JObj [("home", JStr "Start")]); ("title", JStr "Hallo")]
         "nav.home" = Some (JStr "Start")).
Proof.
  split; [reflexivity|].
  apply (flattened_keys_are_lookups
           [("nav", JObj [("home", JStr "Start")]); ("title", JStr "Hallo")]
           "nav.home" "Start").
  reflexivity.
Defined.

(** ** The batch for a target without a catalogue *)

Lemma get_nested_value_empty path : get_nested_value [] path = None.
Proof. apply descend_empty, split_dot_nonempty. Qed.

Lemma fold_classify_empty hashes (src_keys : dict string) acc :
  fold_left (classify [] hashes) src_keys acc
  = acc ++ ((fun kv => (kv.1, kv.2, missing)) <$> src_keys).
Proof.
  revert acc. induction src_keys as [|[k v] src_keys IH]; intros acc.
  - by rewrite app_nil_r.
  - cbn [fold_left]. unfold classify at 2. rewrite get_nested_value_empty.
    rewrite IH, <- app_assoc. done.
Qed.

(** X5.  For a target locale whose catalogue is empty (or could not be
    loaded and was replaced by the empty one), the batch is the whole
    flattened source, in source order, every entry marked as missing,
    whatever the ledger holds. *)
Theorem empty_target_batch (src_keys : dict string) hashes :
  find_missing_or_changed src_keys [] hashes
  = (fun kv => (kv.1, kv.2, missing)) <$> src_keys.
Proof. unfold find_missing_or_changed. by rewrite fold_classify_empty. Qed.

(** ** The hashes of the ledger *)

Lemma hex_digit_is_hex d : 0 ≤ d < 16 → is_hex (MD5.hex_digit d) = true.
Proof.
  intros Hd.
  assert (d ∈ [0; 1; 2; 3; 4; 5; 6; 7; 8; 9; 10; 11; 12; 13; 14; 15]) as Hin.
  { repeat rewrite elem_of_cons. rewrite elem_of_nil. lia. }
  repeat (apply elem_of_cons in Hin as [->|Hin]; [reflexivity|]).
  by apply elem_of_nil in Hin.
Qed.

Lemma hex_byte_is_hex x :
  str_forallb is_hex (MD5.hex_byte (Z.land x 255)) = true.
Proof.
  unfold MD5.hex_byte. cbn [str_forallb].
  change 255 with (Z.ones 8). rewrite Z.land_ones by lia.
  pose proof (Z.mod_pos_bound x (2 ^ 8) ltac:(lia)) as Hb.
  rewrite !hex_digit_is_hex; [done| |].
  - change 15 with (Z.ones 4). rewrite Z.land_ones by lia.
    apply Z.mod_pos_bound. lia.
  - rewrite Z.shiftr_div_pow2 by lia. split.
    + apply Z.div_pos; lia.
    + apply Z.div_lt_upper_bound; lia.
Qed.

Lemma str_forallb_app f a b :
  str_forallb f (a +:+ b) = str_forallb f a && str_forallb f b.
Proof.
  induction a as [|c a IH]; [done|].
  rewrite str_app_cons. cbn [str_forallb]. by rewrite IH, andb_assoc.
Qed.

Lemma get_hash_bytes text :
  ∃ a, get_hash text
       = MD5.hex_byte (Z.land a 255)
         +:+ MD5.hex_byte (Z.land (Z.shiftr a 8) 255)
         +:+ MD5.hex_byte (Z.land (Z.shiftr a 16) 255)
         +:+ MD5.hex_byte (Z.land (Z.shiftr a 24) 255).
Proof.
  unfold get_hash, MD5.hexdigest.
  generalize (MD5.digest_state (bytes_of_string text)). intros st.
  exists (MD5.sA st). reflexivity.
Qed.

(** X6.  Whatever the text, [get_hash] gives exactly eight characters, each
    a lowercase hexadecimal digit; a hash is therefore never the empty
    string. *)
Theorem get_hash_shape text :
  String.length (get_hash text) = 8%nat
  ∧ str_forallb is_hex (get_hash text) = true.
Proof.
  split; [apply get_hash_length|].
  destruct (get_hash_bytes text) as [a ->].
  by rewrite !str_forallb_app, !hex_byte_is_hex.
Qed.

(** ** The change-detection loop *)

Lemma dict_set_NoDup {V} (k : string) (v : V) (d : dict V) :
  NoDup d.*1 → NoDup (dict_set k v d).*1.
Proof.
  induction d as [|[k' v'] d IH]; intros Hnd.
  - cbn. apply NoDup_singleton.
  - cbn in Hnd. apply NoDup_cons in Hnd as [Hk' Hnd]. cbn [dict_set].
    destruct (decide (k' = k)) as [->|Hne]; cbn.
    + by apply NoDup_cons.
    + apply NoDup_cons. split; [|by apply IH].
      intros Hin. apply (dict_keys_set k k' v d) in Hin as [->|Hin]; done.
Qed.

Lemma dict_update_NoDup {V} (d other : dict V) :
  NoDup d.*1 → NoDup (dict_update d other).*1.
Proof.
  revert d. unfold dict_update.
  induction other as [|[k v] other IH]; intros d Hnd; [done|].
  cbn [fold_left]. by apply IH, dict_set_NoDup.
Qed.

Lemma collect_value_NoDup v path result :
  NoDup result.*1 → NoDup (collect_value v path result).*1.
Proof.
  destruct v as [s|d]; cbn [collect_value]; intros Hnd.
  - by apply dict_set_NoDup.
  - by apply dict_update_NoDup.
Qed.

Lemma collect_all_keys_NoDup data prefix :
  NoDup (collect_all_keys data prefix).*1.
Proof.
  unfold collect_all_keys.
  assert (NoDup (@nil (string * string)).*1) as Hnil by constructor.
  revert Hnil. generalize (@nil (string * string)).
  induction data as [|[k c] data IH]; intros result Hnd; [done|].
  cbn [fold_left]. by apply IH, collect_value_NoDup.
Qed.

Lemma check_changed_step hashes n k v w :
  ∃ hashes' n' w',
    check_changed (hashes, n) (k, v) w = (Ok (hashes', n'), w')
    ∧ dict_get k hashes' = Some (JStr (get_hash v))
    ∧ (∀ k', k' ≠ k → dict_get k' hashes' = dict_get k' hashes)
    ∧ (dict_get k hashes = Some (JStr (get_hash v)) →
       hashes' = hashes ∧ n' = n ∧ w' = w).
Proof.
  unfold check_changed.
  destruct (differs (dict_get k hashes) (get_hash v)) eqn:Hdiff.
  - assert (∃ n' w',
              (if bool_decide (is_Some (dict_get k hashes))
               then print ("   🔑 Changed key detected: " +:+ k);;
                    ret (S n)
               else ret n) w = (Ok n', w')) as (n' & w' & Hn).
    { destruct (bool_decide _).
      - destruct (print_ok ("   🔑 Changed key detected: " +:+ k) w)
          as (w' & Hp & _).
        exists (S n), w'. by rewrite (bind_ok _ _ _ _ _ Hp).
      - by exists n, w. }
    rewrite (bind_ok _ _ _ _ _ Hn).
    eexists _, n', w'. split; [done|]. split; [apply dict_get_set_eq|].
    split; [intros k' Hne; by apply dict_get_set_ne|].
    intros Hsame. rewrite Hsame in Hdiff. cbn in Hdiff.
    by rewrite bool_decide_true in Hdiff.
  - exists hashes, n, w. split; [done|]. split.
    + unfold differs in Hdiff.
      destruct (dict_get k hashes) as [[h|]|]; try done.
      apply negb_false_iff, bool_decide_eq_true in Hdiff. by subst.
    + done.
Qed.

Lemma check_loop_spec (src_keys : dict string) hashes n w :
  ∃ hashes' n' w',
    for_each src_keys check_changed (hashes, n) w = (Ok (hashes', n'), w')
    ∧ (∀ k, k ∉ src_keys.*1 → dict_get k hashes' = dict_get k hashes)
    ∧ (NoDup src_keys.*1 →
       ∀ k v, (k, v) ∈ src_keys → dict_get k hashes' = Some (JStr (get_hash v)))
    ∧ (∀ k, k ∈ src_keys.*1 → truthy_value (dict_get k hashes') = true).
Proof.
  revert hashes n w.
  induction src_keys as [|[k v] src_keys IH]; intros hashes n w.
  - exists hashes, n, w. split; [done|]. split; [done|]. split.
    + intros _ k' v' Hin. by apply elem_of_nil in Hin.
    + intros k' Hin. by apply elem_of_nil in Hin.
  - destruct (check_changed_step hashes n k v w)
      as (h1 & n1 & w1 & Hstep & Hk & Hother & _).
    destruct (IH h1 n1 w1) as (h' & n' & w' & Hrun & Hframe & Hsync & Htruthy).
    exists h', n', w'. cbn [for_each]. rewrite (bind_ok _ _ _ _ _ Hstep).
    split; [done|]. split; [|split].
    + intros k0 Hk0. cbn in Hk0. apply not_elem_of_cons in Hk0 as [Hne Hk0].
      rewrite Hframe by done. by apply Hother.
    + intros Hnd k0 v0 Hin. cbn in Hnd. apply NoDup_cons in Hnd as [Hfresh Hnd].
      apply elem_of_cons in Hin as [[= -> ->]|Hin].
      * by rewrite Hframe.
      * by apply Hsync.
    + intros k0 Hk0. destruct (decide (k0 ∈ src_keys.*1)) as [Hin|Hnin].
      * by apply Htruthy.
      * cbn in Hk0. apply elem_of_cons in Hk0 as [->|?]; [|done].
        rewrite Hframe, Hk by done. cbn. apply get_hash_truthy.
Qed.

(** X7.  After the change-detection loop the ledger holds, for every key
    path of the flattened source, the hash of its current value. *)
Theorem check_loop_records_hashes src_data hashes n w key_path value :
  (key_path, value) ∈ collect_all_keys src_data EmptyString →
  ∃ hashes' n' w',
    for_each (collect_all_keys src_data EmptyString) check_changed
      (hashes, n) w = (Ok (hashes', n'), w')
    ∧ dict_get key_path hashes' = Some (JStr (get_hash value)).
Proof.
  intros Hin.
  destruct (check_loop_spec (collect_all_keys src_data EmptyString) hashes n w)
    as (h' & n' & w' & Hrun & _ & Hsync & _).
  exists h', n', w'. split; [done|].
  apply Hsync; [apply collect_all_keys_NoDup|done].
Qed.

Lemma check_loop_records_hashes_witness :
  ("a.b", "Hallo")
  ∈ collect_all_keys [("a", JObj [("b", JStr "Hallo")])] EmptyString
  ∧ ∃ hashes' n' w',
      for_each (collect_all_keys [("a", JObj [("b", JStr "Hallo")])] EmptyString)
        check_changed ([("a.b", JStr "00000000")], 0%nat) (sample_world None [])
      = (Ok (hashes', n'), w')
      ∧ dict_get "a.b" hashes' = Some (JStr (get_hash "Hallo")).
Proof.
  assert (("a.b", "Hallo")
          ∈ collect_all_keys [("a", JObj [("b", JStr "Hallo")])] EmptyString)
    as Hin by (apply list_elem_of_singleton; reflexivity).
  split; [exact Hin|].
  exact (check_loop_records_hashes [("a", JObj [("b", JStr "Hallo")])]
           [("a.b", JStr "00000000")] 0%nat (sample_world None [])
           "a.b" "Hallo" Hin).
Defined.

(** X8.  The change-detection loop leaves alone every ledger entry whose key
    path is not a key path of the flattened source: entries of keys that
    left the source keep their stored value. *)
Theorem check_loop_keeps_other_entries (src_keys : dict string) hashes n w key_path :
  key_path ∉ src_keys.*1 →
  ∃ hashes' n' w',
    for_each src_keys check_changed (hashes, n) w = (Ok (hashes', n'), w')
    ∧ dict_get key_path hashes' = dict_get key_path hashes.
Proof.
  intros Hout.
  destruct (check_loop_spec src_keys hashes n w)
    as (h' & n' & w' & Hrun & Hframe & _).
  exists h', n', w'. split; [done|]. by apply Hframe.
Qed.

Lemma check_loop_keeps_other_entries_witness :
  ("retired" ∉ ([("title", "Hallo")].*1 : list string))
  ∧ ∃ hashes' n' w',
      for_each [("title", "Hallo")] check_changed
        ([("retired", JStr "0a1b2c3d")], 0%nat) (sample_world None [])
      = (Ok (hashes', n'), w')
      ∧ dict_get "retired" hashes'
        = dict_get "retired" [("retired", JStr "0a1b2c3d")].
Proof.
  assert ("retired" ∉ ([("title", "Hallo")].*1 : list string)) as Hout.
  { intros Hin. apply list_elem_of_singleton in Hin. discriminate. }
  split; [exact Hout|].
  exact (check_loop_keeps_other_entries [("title", "Hallo")]
           [("retired", JStr "0a1b2c3d")] 0%nat (sample_world None [])
           "retired" Hout).
Defined.

Lemma check_loop_fixed (src_keys : dict string) hashes n w :
  (∀ k v, (k, v) ∈ src_keys → dict_get k hashes = Some (JStr (get_hash v))) →
  for_each src_keys check_changed (hashes, n) w = (Ok (hashes, n), w).
Proof.
  induction src_keys as [|[k v] src_keys IH]; intros Hall; [done|].
  destruct (check_changed_step hashes n k v w)
    as (h1 & n1 & w1 & Hstep & _ & _ & Hsame).
  destruct Hsame as (-> & -> & ->); [apply Hall, elem_of_cons; by left|].
  cbn [for_each]. rewrite (bind_ok _ _ _ _ _ Hstep).
  apply IH. intros k0 v0 Hin. apply Hall, elem_of_cons. by right.
Qed.

(** X9.  Once the change-detection loop has run over the flattened source,
    running it again over the same source changes nothing: the ledger and
    the counter of changed keys come back as they went in and nothing is
    printed. *)
Theorem check_loop_idempotent src_data hashes n w hashes' n' w' :
  for_each (collect_all_keys src_data EmptyString) check_changed (hashes, n) w
  = (Ok (hashes', n'), w') →
  ∀ m w2,
    for_each (collect_all_keys src_data EmptyString) check_changed
      (hashes', m) w2 = (Ok (hashes', m), w2).
Proof.
  intros Hrun m w2.
  destruct (check_loop_spec (collect_all_keys src_data EmptyString) hashes n w)
    as (h1 & n1 & w1 & Hrun1 & _ & Hsync & _).
  rewrite Hrun in Hrun1. injection Hrun1 as <- <- <-.
  apply check_loop_fixed. apply Hsync, collect_all_keys_NoDup.
Qed.

Lemma check_loop_idempotent_witness :
  for_each (collect_all_keys [("title", JStr "Hallo")] EmptyString) check_changed
    ([("title", JStr "00000000")], 0%nat) (sample_world None [])
  = (Ok ([("title", JStr "d1bf9329")], 1%nat),
     {| routing_ts := None; messages := ∅; api_calls := [];
        stdout := "   🔑 Changed key detected: title" +:+ nl;
        opened_for_write := [] |})
  ∧ for_each (collect_all_keys [("title", JStr "Hallo")] EmptyString)
      check_changed ([("title", JStr "d1bf9329")], 5%nat) (sample_world None [])
    = (Ok ([("title", JStr "d1bf9329")], 5%nat), sample_world None []).
Proof.
  assert (for_each (collect_all_keys [("title", JStr "Hallo")] EmptyString)
            check_changed ([("title", JStr "00000000")], 0%nat)
            (sample_world None [])
          = (Ok ([("title", JStr "d1bf9329")], 1%nat),
             {| routing_ts := None; messages := ∅; api_calls := [];
                stdout := "   🔑 Changed key detected: title" +:+ nl;
                opened_for_write := [] |})) as Hrun
    by (vm_compute; reflexivity).
  split; [exact Hrun|].
  exact (check_loop_idempotent [("title", JStr "Hallo")] _ _ _ _ _ _ Hrun
           5%nat (sample_world None [])).
Defined.

Lemma check_changed_new hashes n k v w :
  dict_get k hashes = None →
  check_changed (hashes, n) (k, v) w
  = (Ok (dict_set k (JStr (get_hash v)) hashes, n), w).
Proof. intros H. unfold check_changed. rewrite H. reflexivity. Qed.

(** X10.  When the ledger has no entry for any key path of the source (a
    first run, or a lost or unreadable ledger), the change-detection loop
    reports no key as changed: the counter keeps its value and nothing is
    printed, while every source key gets its entry. *)
Theorem check_loop_first_run (src_keys : dict string) hashes n w :
  NoDup src_keys.*1 →
  (∀ k, k ∈ src_keys.*1 → dict_get k hashes = None) →
  ∃ hashes',
    for_each src_keys check_changed (hashes, n) w = (Ok (hashes', n), w)
    ∧ ∀ k v, (k, v) ∈ src_keys → dict_get k hashes' = Some (JStr (get_hash v)).
Proof.
  intros Hnd Hnone.
  destruct (check_loop_spec src_keys hashes n w)
    as (h' & n' & w' & Hrun & _ & Hsync & _).
  assert (n' = n ∧ w' = w) as [-> ->].
  { clear Hsync. revert hashes n' w' Hnone Hrun.
    induction src_keys as [|[k v] src_keys IH]; intros hashes n' w' Hnone Hrun.
    - by injection Hrun as _ <- <-.
    - cbn in Hnd. apply NoDup_cons in Hnd as [Hfresh Hnd].
      cbn [for_each] in Hrun.
      rewrite (bind_ok _ _ _ _ _ (check_changed_new hashes n k v w
                                     (Hnone k ltac:(cbn; left)))) in Hrun.
      apply (IH Hnd (dict_set k (JStr (get_hash v)) hashes)); [|done].
      intros k0 Hk0. rewrite dict_get_set_ne by (by intros ->).
      apply Hnone. cbn. by right. }
  exists h'. split; [done|]. by apply Hsync.
Qed.

Lemma check_loop_first_run_witness :
  NoDup [("title", "Hallo"); ("nav.home", "Start")].*1
  ∧ (∀ k, k ∈ [("title", "Hallo"); ("nav.home", "Start")].*1 →
          dict_get k (@nil (string * json)) = None)
  ∧ ∃ hashes',
      for_each [("title", "Hallo"); ("nav.home", "Start")] check_changed
        ([], 0%nat) (sample_world None [])
      = (Ok (hashes', 0%nat), sample_world None [])
      ∧ ∀ k v, (k, v) ∈ [("title", "Hallo"); ("nav.home", "Start")] →
               dict_get k hashes' = Some (JStr (get_hash v)).
Proof.
  assert (NoDup [("title", "Hallo"); ("nav.home", "Start")].*1) as Hnd
    by (apply (bool_decide_unpack _); vm_compute; exact I).
  assert (∀ k, k ∈ [("title", "Hallo"); ("nav.home", "Start")].*1 →
               dict_get k (@nil (string * json)) = None) as Hnone
    by (intros k _; reflexivity).
  split; [exact Hnd|]. split; [exact Hnone|].
  exact (check_loop_first_run [("title", "Hallo"); ("nav.home", "Start")]
           [] 0%nat (sample_world None []) Hnd Hnone).
Defined.

Lemma fold_classify_all target hashes (src_keys : dict string) acc :
  (∀ k, k ∈ src_keys.*1 → truthy_value (dict_get k hashes) = true) →
  (fun e => e.1) <$> fold_left (classify target hashes) src_keys acc
  = ((fun e => e.1) <$> acc) ++ src_keys.
Proof.
  revert acc. induction src_keys as [|[k v] src_keys IH]; intros acc Hall.
  - by rewrite app_nil_r.
  - cbn [fold_left]. rewrite IH by (intros k0 Hk0; apply Hall; cbn; by right).
    unfold classify.
    destruct (get_nested_value target k).
    + rewrite (Hall k) by (cbn; left). by rewrite fmap_app, <- app_assoc.
    + by rewrite fmap_app, <- app_assoc.
Qed.

(** X11.  After the change-detection loop has run over the source keys, the
    batch computed for any target catalogue holds every source key, in
    source order, as missing or as changed: with the ledger the loop leaves
    behind, no source key is ever left out of a batch. *)
Theorem batch_after_check_loop (src_keys : dict string) hashes n w hashes' n' w' :
  for_each src_keys check_changed (hashes, n) w = (Ok (hashes', n'), w') →
  ∀ target_data,
    (fun e => e.1) <$> find_missing_or_changed src_keys target_data hashes'
    = src_keys.
Proof.
  intros Hrun target_data.
  destruct (check_loop_spec src_keys hashes n w)
    as (h1 & n1 & w1 & Hrun1 & _ & _ & Htruthy).
  rewrite Hrun in Hrun1. injection Hrun1 as <- <- <-.
  unfold find_missing_or_changed. by rewrite fold_classify_all.
Qed.

Lemma batch_after_check_loop_witness :
  for_each [("title", "Hallo")] check_changed
    ([("title", JStr "d1bf9329")], 0%nat) (sample_world None [])
  = (Ok ([("title", JStr "d1bf9329")], 0%nat), sample_world None [])
  ∧ (fun e : string * string * reason => e.1)
      <$> find_missing_or_changed [("title", "Hallo")]
            [("title", JStr "Hello")] [("title", JStr "d1bf9329")]
    = [("title", "Hallo")].
Proof.
  assert (for_each [("title", "Hallo")] check_changed
            ([("title", JStr "d1bf9329")], 0%nat) (sample_world None [])
          = (Ok ([("title", JStr "d1bf9329")], 0%nat), sample_world None []))
    as Hrun by (vm_compute; reflexivity).
  split; [exact Hrun|].
  exact (batch_after_check_loop [("title", "Hallo")] _ _ _ _ _ _ Hrun
           [("title", JStr "Hello")]).
Defined.

(** ** The translation loop: requests and counters *)

Lemma translate_text_calls env client text dl sl w :
  ∃ translated w',
    translate_text env client text dl sl w = (Ok translated, w')
    ∧ (api_calls w' = api_calls w
       ∨ api_calls w' = api_calls w ++ [build_params text dl sl]).
Proof.
  unfold translate_text.
  destruct (negb (truthy (strip text))); [exists text, w; by split; [|left]|].
  destruct (startswith text "__" && endswith text "__");
    [exists text, w; by split; [|left]|].
  destruct (api_translate_ok env client (build_params text dl sl) w)
    as (w1 & Hcall & _ & Hlog).
  rewrite (bind_ok _ _ _ _ _ Hcall).
  destruct (deepl_service env client (api_calls w) (build_params text dl sl))
    as [t|e|e].
  - exists t, w1. split; [done|by right].
  - rewrite (bind_ok _ _ _ _ _ (print_eq _ w1)).
    eexists text, _. split; [done|]. right. exact Hlog.
  - rewrite (bind_ok _ _ _ _ _ (print_eq _ w1)).
    eexists text, _. split; [done|]. right. exact Hlog.
Qed.

Lemma translate_entry_calls env client dl src target total full_path value why w :
  ∃ translated w',
    translate_entry env client dl src (target, total) (full_path, value, why) w
    = (Ok (merge_key full_path translated target, S total), w')
    ∧ (api_calls w' = api_calls w
       ∨ api_calls w' = api_calls w ++ [build_params value dl (Some src)]).
Proof.
  unfold translate_entry.
  destruct (translate_text_calls env client value dl (Some src) w)
    as (translated & w1 & Ht & Hcalls).
  rewrite (bind_ok _ _ _ _ _ Ht).
  rewrite (bind_ok _ _ _ _ _ (print_eq _ w1)).
  eexists translated, _. split; [done|]. exact Hcalls.
Qed.

(** X12.  The translation loop over a batch counts one translation per
    entry, whether a request was sent or not, and sends at most one request
    per entry, in batch order: the requests it adds form a sublist of the
    list holding, for each entry, the request for its value with the target
    language code and the source language code of the run. *)
Theorem translation_loop_accounting env client dl src batch target total w :
  ∃ target' w' requests,
    for_each batch (translate_entry env client dl src) (target, total) w
    = (Ok (target', (total + length batch)%nat), w')
    ∧ api_calls w' = api_calls w ++ requests
    ∧ sublist requests (entry_request dl src <$> batch).
Proof.
  revert target total w.
  induction batch as [|[[full_path value] why] batch IH]; intros target total w.
  - exists target, w, []. cbn. rewrite Nat.add_0_r, app_nil_r. by repeat split.
  - cbn [for_each].
    destruct (translate_entry_calls env client dl src target total
                full_path value why w) as (translated & w1 & He & Hcalls).
    rewrite (bind_ok _ _ _ _ _ He).
    destruct (IH (merge_key full_path translated target) (S total) w1)
      as (target' & w' & reqs & Hrun & Hlog & Hsub).
    rewrite Hrun.
    replace (total + length ((full_path, value, why) :: batch))%nat
      with (S total + length batch)%nat by (cbn; lia).
    destruct Hcalls as [Hsame|Hmore].
    + exists target', w', reqs. split; [done|]. split; [by rewrite Hlog, Hsame|].
      cbn. by apply sublist_cons.
    + exists target', w', (build_params value dl (Some src) :: reqs).
      split; [done|]. split.
      * rewrite Hlog, Hmore, <- app_assoc. done.
      * cbn. by apply sublist_skip.
Qed.

(** ** Prefix-free key paths and the completeness of the merge *)

Lemma diverge_sym p q : diverge p q = diverge q p.
Proof.
  revert q. induction p as [|a p IH]; intros [|b q]; try done.
  cbn [diverge]. destruct (decide (a = b)) as [->|Hne].
  - by rewrite decide_True, IH.
  - by rewrite decide_False.
Qed.

Lemma prefix_free_app l1 l2 :
  prefix_free (l1 ++ l2)
  = prefix_free l1 && prefix_free l2
    && forallb (fun p => forallb (diverge p) l2) l1.
Proof.
  induction l1 as [|p l1 IH]; cbn [prefix_free app forallb].
  - by rewrite andb_true_r.
  - rewrite IH, forallb_app.
    destruct (forallb (diverge p) l1), (prefix_free l1), (prefix_free l2),
      (forallb (diverge p) l2); done.
Qed.

Lemma forallb_diverge_under_key k p (l : list (list string)) :
  forallb (diverge (k :: p)) (cons k <$> l) = forallb (diverge p) l.
Proof.
  induction l as [|q l IH]; [done|].
  rewrite fmap_cons. cbn [forallb]. rewrite IH. f_equal.
  cbn [diverge]. by rewrite decide_True.
Qed.

Lemma prefix_free_under_key k (l : list (list string)) :
  prefix_free (cons k <$> l) = prefix_free l.
Proof.
  induction l as [|p l IH]; [done|].
  rewrite fmap_cons. cbn [prefix_free].
  by rewrite forallb_diverge_under_key, IH.
Qed.

Lemma rleaves_children_prefix_free d :
  NoDup d.*1 →
  Forall (fun kv => prefix_free (rleaves kv.2).*1 = true) d →
  prefix_free (rleaves (JObj d)).*1 = true.
Proof.
  induction d as [|[k c] d IH]; intros Hnd Hall; [done|].
  cbn in Hnd. apply NoDup_cons in Hnd as [Hk Hnd].
  apply Forall_cons in Hall as [Hc Hall]. cbn [snd] in Hc.
  rewrite rleaves_cons, fmap_app, fst_under_key, prefix_free_app.
  rewrite prefix_free_under_key, Hc, (IH Hnd Hall). cbn [andb].
  apply forallb_Forall, Forall_fmap, Forall_forall. intros p _. cbn.
  apply forallb_Forall, Forall_forall. intros q Hq.
  apply rleaves_obj_heads in Hq as (k' & q' & -> & Hk').
  cbn [diverge]. rewrite decide_False; [done|]. by intros ->.
Qed.

Lemma rleaves_prefix_free c :
  unique_keys c = true → prefix_free (rleaves c).*1 = true.
Proof.
  induction c as [s|d IH] using json_ind'; [done|].
  cbn [unique_keys]. intros [Hnd Hall]%andb_prop.
  apply bool_decide_eq_true in Hnd. apply forallb_Forall in Hall.
  apply rleaves_children_prefix_free; [done|].
  apply Forall_forall. intros kv Hkv. rewrite Forall_forall in IH, Hall.
  by apply (IH kv Hkv), (Hall kv Hkv).
Qed.

Lemma collect_all_keys_prefix_free data :
  catalog_ok data = true →
  prefix_free (split_dot <$> (collect_all_keys data EmptyString).*1) = true.
Proof.
  intros Hcat. rewrite (collect_all_keys_enc data Hcat).
  destruct (decide (data = [])) as [->|Hne]; [done|].
  pose proof (rleaves_good data (catalog_ok_nested data Hcat Hne)) as Hgood.
  assert (split_dot <$> (enc (rleaves (JObj data))).*1
          = (rleaves (JObj data)).*1) as ->.
  { revert Hgood. generalize (rleaves (JObj data)). intros l Hgood.
    induction l as [|[p v] l IH]; [done|].
    cbn in Hgood. apply Forall_cons in Hgood as [Hp Hl].
    cbn. rewrite split_dot_join by done. f_equal. by apply IH. }
  by apply rleaves_prefix_free, catalog_ok_unique.
Qed.

(** X13.  The key paths of the flattened form of a catalogue with dot-free
    distinct keys, no empty nested object and no object under the empty
    top-level key are prefix-free: the parts of one key path are never a
    prefix of the parts of another, so no key path names both a leaf and an
    object. *)
Theorem flattened_keys_prefix_free data :
  catalog_ok data = true →
  prefix_free (split_dot <$> (collect_all_keys data EmptyString).*1) = true.
Proof. apply collect_all_keys_prefix_free. Qed.

Lemma flattened_keys_prefix_free_witness :
  catalog_ok [("nav", JObj [("home", JStr "Start")]); ("title", JStr "Hallo")]
  = true
  ∧ prefix_free
      (split_dot
         <$> (collect_all_keys
                [("nav", JObj [("home", JStr "Start")]); ("title", JStr "Hallo")]
                EmptyString).*1) = true.
Proof.
  split; [reflexivity|].
  apply (flattened_keys_prefix_free
           [("nav", JObj [("home", JStr "Start")]); ("title", JStr "Hallo")]).
  reflexivity.
Defined.

Lemma for_each_fills_batch env client dl src batch target total w :
  prefix_free ((fun entry => split_dot entry.1.1) <$> batch) = true →
  ∃ target' total' w',
    for_each batch (translate_entry env client dl src) (target, total) w
    = (Ok (target', total'), w')
    ∧ ∀ entry, entry ∈ batch →
        ∃ t, get_nested_value target' entry.1.1 = Some (JStr t).
Proof.
  revert target total w.
  induction batch as [|[[full_path value] why] batch IH];
    intros target total w Hpf.
  - exists target, total, w. split; [done|].
    intros entry Hin. by apply elem_of_nil in Hin.
  - cbn [fmap list_fmap prefix_free] in Hpf.
    fold ((fun entry : string * string * reason => split_dot entry.1.1) <$> batch)
      in Hpf.
    apply andb_prop in Hpf as [Hhead Hpf]. cbn [fst] in Hhead.
    destruct (translate_entry_ok env client dl src target total
                full_path value why w) as (translated & w1 & He & _ & _).
    cbn [for_each]. rewrite (bind_ok _ _ _ _ _ He).
    destruct (IH (merge_key full_path translated target) (S total) w1 Hpf)
      as (target' & total' & w' & Hrun & Hfilled).
    exists target', total', w'. split; [done|].
    intros entry Hin. apply elem_of_cons in Hin as [->|Hin]; [|by apply Hfilled].
    exists translated. cbn [fst].
    destruct (for_each_translate_entry env client dl src batch
                (merge_key full_path translated target) (S total) w1 full_path)
      as (t2 & n2 & w2 & Hrun2 & Hkeep & _).
    { apply forallb_Forall, Forall_forall. intros entry Hentry.
      rewrite diverge_sym.
      apply forallb_Forall in Hhead. rewrite Forall_forall in Hhead.
      apply Hhead. apply list_elem_of_fmap. by exists entry. }
    rewrite Hrun in Hrun2. injection Hrun2 as <- <- <-.
    rewrite Hkeep. apply get_nested_value_merge_key.
Qed.

(** X14.  When the key paths of a batch are prefix-free, the translation
    loop leaves every one of them filled: after the loop, the lookup of each
    key path of the batch in the target catalogue gives a string. *)
Theorem merge_loop_fills_batch env client dl src batch target total w :
  prefix_free ((fun entry => split_dot entry.1.1) <$> batch) = true →
  ∃ target' total' w',
    for_each batch (translate_entry env client dl src) (target, total) w
    = (Ok (target', total'), w')
    ∧ ∀ entry, entry ∈ batch →
        ∃ t, get_nested_value target' entry.1.1 = Some (JStr t).
Proof. apply for_each_fills_batch. Qed.

Lemma merge_loop_fills_batch_witness :
  prefix_free
    ((fun entry : string * string * reason => split_dot entry.1.1)
       <$> [("nav.home", "Start", missing); ("title", "Hallo", changed)]) = true
  ∧ ∃ target' total' w',
      for_each [("nav.home", "Start", missing); ("title", "Hallo", changed)]
        (translate_entry (sample_env bracket_service) sample_client "EN-US" "DE")
        ([("nav", JStr "old")], 0%nat) (sample_world None [])
      = (Ok (target', total'), w')
      ∧ ∀ entry,
          entry ∈ [("nav.home", "Start", missing); ("title", "Hallo", changed)] →
          ∃ t, get_nested_value target' entry.1.1 = Some (JStr t).
Proof.
  split; [reflexivity|].
  apply (merge_loop_fills_batch (sample_env bracket_service) sample_client
           "EN-US" "DE"
           [("nav.home", "Start", missing); ("title", "Hallo", changed)]
           [("nav", JStr "old")] 0%nat (sample_world None [])).
  reflexivity.
Defined.

(** ** The locale codes read from the routing file *)

Lemma findall_codes_two_lower_fuel n s :
  (String.length s ≤ n)%nat →
  Forall (fun code => two_lower code = true) (findall_codes s).
Proof.
  revert s. induction n as [|n IH]; intros s Hlen.
  - destruct s; [constructor|cbn in Hlen; lia].
  - destruct s as [|q1 s1]; [constructor|].
    cbn [String.length] in Hlen.
    assert (Forall (fun code => two_lower code = true) (findall_codes s1))
      as Hs1 by (apply IH; lia).
    cbn [findall_codes].
    destruct s1 as [|a [|b [|q2 rest]]]; try exact Hs1.
    destruct (bool_decide (q1 = "'"%char) && lower_az a && lower_az b
              && bool_decide (q2 = "'"%char)) eqn:Hcond; [|exact Hs1].
    constructor.
    + apply andb_prop in Hcond as [Hcond _].
      apply andb_prop in Hcond as [Hcond Hb].
      apply andb_prop in Hcond as [_ Ha].
      cbn. by rewrite Ha, Hb.
    + apply IH. cbn [String.length] in Hlen. lia.
Qed.

Lemma match_default_at_two_lower s code :
  match_default_at s = Some code → two_lower code = true.
Proof.
  unfold match_default_at. intros H.
  apply bind_Some in H as (s1 & _ & H).
  apply bind_Some in H as (s2 & _ & H).
  apply bind_Some in H as (s3 & _ & H).
  destruct s3 as [|a [|b [|q s3]]]; try done.
  destruct (lower_az a && lower_az b && bool_decide (q = "'"%char)) eqn:Hcond;
    [|done].
  injection H as <-. apply andb_prop in Hcond as [Hcond _]. exact Hcond.
Qed.

Lemma search_default_two_lower s code :
  search_default s = Some code → two_lower code = true.
Proof.
  induction s as [|c s IH]; cbn [search_default].
  - destruct (match_default_at EmptyString) eqn:E; [|done].
    intros [= <-]. by eapply match_default_at_two_lower.
  - destruct (match_default_at (String c s)) eqn:E.
    + intros [= <-]. by eapply match_default_at_two_lower.
    + exact IH.
Qed.

(** X15.  Every locale code [get_locales_from_routing] returns, and the
    default locale [get_default_locale] returns (the fallback included),
    consists of exactly two letters of [a-z], whatever the routing file
    holds; so do the names the catalogue file names are built from. *)
Theorem routing_codes_two_letters w all_locales w1 default_locale w2 :
  get_locales_from_routing w = (Ok all_locales, w1) →
  get_default_locale w = (Ok default_locale, w2) →
  Forall (fun code => two_lower code = true) all_locales
  ∧ two_lower default_locale = true.
Proof.
  intros Hl Hd. split.
  - unfold get_locales_from_routing, bind, routing_exists, routing_read_text in Hl.
    destruct (routing_ts w) as [content|] eqn:Hr;
      repeat (progress (cbn in Hl; rewrite ?Hr in Hl)); [|done].
    destruct (search_locales content) as [ls|] eqn:Hs;
      repeat (progress (cbn in Hl; rewrite ?Hs in Hl)); [|done].
    injection Hl as <- _. by eapply findall_codes_two_lower_fuel.
  - unfold get_default_locale, bind, routing_read_text in Hd.
    destruct (routing_ts w) as [content|] eqn:Hr;
      repeat (progress (cbn in Hd; rewrite ?Hr in Hd)); [|done].
    destruct (search_default content) as [code|] eqn:Hs.
    + injection Hd as <- _. by eapply search_default_two_lower.
    + by injection Hd as <- _.
Qed.

Lemma routing_codes_two_letters_witness :
  get_locales_from_routing
    (sample_world (Some "locales: ['de', 'en', 'DE', 'fra'], x: 'y'") [])
  = (Ok ["de"; "en"],
     sample_world (Some "locales: ['de', 'en', 'DE', 'fra'], x: 'y'") [])
  ∧ get_default_locale
      (sample_world (Some "locales: ['de', 'en', 'DE', 'fra'], x: 'y'") [])
    = (Ok "de", sample_world (Some "locales: ['de', 'en', 'DE', 'fra'], x: 'y'") [])
  ∧ Forall (fun code => two_lower code = true) ["de"; "en"]
  ∧ two_lower "de" = true.
Proof.
  assert (get_locales_from_routing
            (sample_world (Some "locales: ['de', 'en', 'DE', 'fra'], x: 'y'") [])
          = (Ok ["de"; "en"],
             sample_world (Some "locales: ['de', 'en', 'DE', 'fra'], x: 'y'") []))
    as Hl by reflexivity.
  assert (get_default_locale
            (sample_world (Some "locales: ['de', 'en', 'DE', 'fra'], x: 'y'") [])
          = (Ok "de",
             sample_world (Some "locales: ['de', 'en', 'DE', 'fra'], x: 'y'") []))
    as Hd by reflexivity.
  split; [exact Hl|]. split; [exact Hd|].
  exact (routing_codes_two_letters _ _ _ _ _ Hl Hd).
Defined.

(** ** Runs that have nothing to translate *)

#[local] Instance only_prints_preorder : PreOrder only_prints.
Proof.
  split.
  - intros w. by repeat split.
  - intros a b c (H1 & H2 & H3 & H4) (H5 & H6 & H7 & H8).
    repeat split; congruence.
Qed.

Lemma print_only s w : ∃ w', print s w = (Ok tt, w') ∧ only_prints w w'.
Proof. eexists. split; [apply print_eq|]. by repeat split. Qed.

Ltac step_only :=
  match goal with
  | |- context [bind (print ?s) ?k ?w] =>
      let w' := fresh "w" in
      let Hp := fresh "Hp" in
      let Ho := fresh "Ho" in
      destruct (print_only s w) as (w' & Hp & Ho);
      rewrite (bind_ok _ _ _ _ _ Hp); clear Hp
  end.

Ltac last_only :=
  match goal with
  | |- context [print ?s ?w] =>
      let w' := fresh "w" in
      let Hp := fresh "Hp" in
      let Ho := fresh "Ho" in
      destruct (print_only s w) as (w' & Hp & Ho); rewrite Hp; clear Hp
  end.

Ltac absorb_only :=
  repeat match goal with
         | H1 : only_prints ?a ?b, H2 : only_prints ?b ?c |- _ =>
             let H := fresh "Ho" in
             assert (only_prints a c) as H by (by etrans); clear H1 H2
         end.

Lemma only_prints_configured_default w w' :
  only_prints w w' → configured_default w' = configured_default w.
Proof. intros (Hr & _). unfold configured_default. by rewrite Hr. Qed.

(** The start of [main] up to the choice of the target locales, for a
    routing file whose locales array is found. *)
Lemma main_prefix env client w content ls :
  routing_ts w = Some content →
  search_locales content = Some ls →
  ∃ w1,
    only_prints w w1
    ∧ main env client w
      = match filter (fun loc => loc ≠ configured_default w) (findall_codes ls) with
        | [] =>
            print "   ⚠️  No target locales found (only default locale configured)" w1
        | target_locales =>
            (print ("   Target locales: " +:+ join ", " target_locales) ;;
             print EmptyString ;;
             namespaces <- get_all_namespaces ;;
             match namespaces with
             | [] => print "❌ No namespaces found"
             | _ =>
                 hashes <- load_hashes ;;
                 st <- for_each namespaces
                         (process_namespace env client (configured_default w)
                            (upper (configured_default w)) target_locales)
                         (hashes, 0%nat, 0%nat) ;;
                 let '(hashes, total_translations, changed_keys) := st in
                 save_hashes hashes ;;
                 print "✅ Translation complete!" ;;
                 print ("   Total translations: " +:+ pretty total_translations) ;;
                 print ("   Changed keys re-translated: " +:+ pretty changed_keys) ;;
                 print ("   DeepL quota used: ~" +:+ pretty total_translations
                        +:+ " characters")
             end) w1
        end.
Proof.
  intros Hr Hs. unfold main. step_only.
  assert (routing_ts w0 = Some content) as Hr0
    by (destruct Ho as (-> & _); done).
  rewrite (bind_ok _ _ _ _ _ (get_locales_found w0 content ls Hr0 Hs)).
  rewrite (bind_ok _ _ _ _ _ (get_default_locale_ok w0 content Hr0)).
  rewrite (only_prints_configured_default _ _ Ho).
  do 2 step_only. absorb_only.
  exists w2. split; [done|].
  by destruct (filter (fun loc => loc ≠ configured_default w) (findall_codes ls)).
Qed.

Lemma script_runs_main env w :
  deepl_installed env = true →
  truthy_opt (DEEPL_API_KEY env) = true →
  ∃ client, script env w = main env client w.
Proof. intros Hi Hk. unfold script. rewrite Hi, Hk. cbn [negb]. by eexists. Qed.

(** X16.  When the routing file lists no locale other than the default one
    (an array without any quoted two-letter code included), the run ends
    normally after printing: it sends no request, opens no file for writing
    and leaves every file, the ledger included, as it was. *)
Theorem run_without_target_locales env w content ls :
  deepl_installed env = true →
  truthy_opt (DEEPL_API_KEY env) = true →
  routing_ts w = Some content →
  search_locales content = Some ls →
  filter (fun loc => loc ≠ configured_default w) (findall_codes ls) = [] →
  ∃ w', script env w = (Ok tt, w') ∧ only_prints w w'.
Proof.
  intros Hi Hk Hr Hs Hnone.
  destruct (script_runs_main env w Hi Hk) as [client ->].
  destruct (main_prefix env client w content ls Hr Hs) as (w1 & Ho & ->).
  rewrite Hnone. last_only. exists w0. split; [done|by etrans].
Qed.

Lemma run_without_target_locales_witness :
  deepl_installed (sample_env failing_service) = true
  ∧ truthy_opt (DEEPL_API_KEY (sample_env failing_service)) = true
  ∧ (∃ w', script (sample_env failing_service)
             (sample_world (Some "locales: ['de'], defaultLocale: 'de'")
                [("de.json", Parsed [("title", JStr "Hallo")])])
           = (Ok tt, w')
           ∧ only_prints
               (sample_world (Some "locales: ['de'], defaultLocale: 'de'")
                  [("de.json", Parsed [("title", JStr "Hallo")])]) w').
Proof.
  split; [reflexivity|]. split; [reflexivity|].
  apply (run_without_target_locales (sample_env failing_service)
           (sample_world (Some "locales: ['de'], defaultLocale: 'de'")
              [("de.json", Parsed [("title", JStr "Hallo")])])
           "locales: ['de'], defaultLocale: 'de'" "'de'");
    reflexivity.
Defined.

Lemma get_all_namespaces_absent w :
  messages w !! "de.json" = None →
  ∃ w', get_all_namespaces w = (Ok [], w') ∧ only_prints w w'.
Proof.
  intros H. unfold get_all_namespaces.
  rewrite (bind_ok _ _ _ _ _ (file_exists_eq _ w)), H.
  rewrite bool_decide_false by (by intros [? ?]). cbn [negb].
  step_only. by exists w0.
Qed.

(** X17.  The existence test of [get_all_namespaces] is made on [de.json],
    whatever the default locale is: when [src/messages/de.json] does not
    exist, the run ends normally after printing, without sending a request,
    without writing a catalogue and without saving the ledger, even when the
    catalogue of the default locale is there. *)
Theorem run_without_de_json env w content ls :
  deepl_installed env = true →
  truthy_opt (DEEPL_API_KEY env) = true →
  routing_ts w = Some content →
  search_locales content = Some ls →
  messages w !! "de.json" = None →
  ∃ w', script env w = (Ok tt, w') ∧ only_prints w w'.
Proof.
  intros Hi Hk Hr Hs Hde.
  destruct (script_runs_main env w Hi Hk) as [client ->].
  destruct (main_prefix env client w content ls Hr Hs) as (w1 & Ho & ->).
  destruct (filter (fun loc => loc ≠ configured_default w) (findall_codes ls))
    as [|loc0 locs].
  { last_only. exists w0. split; [done|by etrans]. }
  cbv beta iota zeta. do 2 step_only. absorb_only.
  assert (only_prints w w2) as Hw2 by assumption.
  assert (messages w2 !! "de.json" = None) as Hde2
    by (destruct Hw2 as (_ & -> & _); done).
  destruct (get_all_namespaces_absent w2 Hde2) as (w3 & Hns & Ho3).
  rewrite (bind_ok _ _ _ _ _ Hns). cbv beta iota. last_only. absorb_only.
  exists w4. split; [done|assumption].
Qed.

Lemma run_without_de_json_witness :
  deepl_installed (sample_env bracket_service) = true
  ∧ truthy_opt (DEEPL_API_KEY (sample_env bracket_service)) = true
  ∧ messages
      (sample_world (Some "locales: ['en', 'fr'], defaultLocale: 'en'")
         [("en.json", Parsed [("title", JStr "Hello")])]) !! "de.json" = None
  ∧ (∃ w', script (sample_env bracket_service)
             (sample_world (Some "locales: ['en', 'fr'], defaultLocale: 'en'")
                [("en.json", Parsed [("title", JStr "Hello")])])
           = (Ok tt, w')
           ∧ only_prints
               (sample_world (Some "locales: ['en', 'fr'], defaultLocale: 'en'")
                  [("en.json", Parsed [("title", JStr "Hello")])]) w').
Proof.
  split; [reflexivity|]. split; [reflexivity|]. split; [reflexivity|].
  apply (run_without_de_json (sample_env bracket_service)
           (sample_world (Some "locales: ['en', 'fr'], defaultLocale: 'en'")
              [("en.json", Parsed [("title", JStr "Hello")])])
           "locales: ['en', 'fr'], defaultLocale: 'en'" "'en', 'fr'");
    reflexivity.
Defined.

Lemma json_dump_eq name data w :
  json_dump name data w
  = (Ok tt,
     {| routing_ts := routing_ts w;
        messages := <[name := Parsed data]> (messages w);
        api_calls := api_calls w; stdout := stdout w;
        opened_for_write := opened_for_write w ++ [name] |}).
Proof. reflexivity. Qed.

Lemma get_all_namespaces_present w :
  is_Some (messages w !! "de.json") →
  get_all_namespaces w = (Ok ["messages"], w).
Proof.
  intros H. unfold get_all_namespaces.
  rewrite (bind_ok _ _ _ _ _ (file_exists_eq _ w)).
  by rewrite bool_decide_true.
Qed.

Lemma process_namespace_absent env client default_locale source_lang_code
    target_locales state ns w :
  messages w !! locale_json default_locale = None →
  ∃ w', process_namespace env client default_locale source_lang_code
          target_locales state ns w = (Ok state, w')
        ∧ only_prints w w'.
Proof.
  intros H. unfold process_namespace. destruct state as [[hashes total] changed].
  rewrite (bind_ok _ _ _ _ _ (file_exists_eq _ w)), H.
  rewrite bool_decide_false by (by intros [? ?]). cbn [negb].
  step_only. by exists w0.
Qed.

(** X18.  When [de.json] exists, a target locale is configured and the
    catalogue of the default locale does not exist, the namespace is skipped
    but the ledger is saved all the same: the run ends normally, sends no
    request, writes no catalogue, and writes the ledger file with the ledger
    it loaded (the empty one when the file was absent or unreadable). *)
Theorem run_without_source_catalogue env w content ls :
  deepl_installed env = true →
  truthy_opt (DEEPL_API_KEY env) = true →
  routing_ts w = Some content →
  search_locales content = Some ls →
  filter (fun loc => loc ≠ configured_default w) (findall_codes ls) ≠ [] →
  is_Some (messages w !! "de.json") →
  messages w !! locale_json (configured_default w) = None →
  ∃ w', script env w = (Ok tt, w')
        ∧ routing_ts w' = routing_ts w
        ∧ messages w' = <[HASHES_FILE := Parsed (ledger w)]> (messages w)
        ∧ api_calls w' = api_calls w
        ∧ opened_for_write w' = opened_for_write w ++ [HASHES_FILE].
Proof.
  intros Hi Hk Hr Hs Htargets Hde Hsrc.
  destruct (script_runs_main env w Hi Hk) as [client ->].
  destruct (main_prefix env client w content ls Hr Hs) as (w1 & Ho & ->).
  destruct (filter (fun loc => loc ≠ configured_default w) (findall_codes ls))
    as [|loc0 locs]; [done|].
  cbv beta iota zeta. do 2 step_only. absorb_only.
  assert (only_prints w w2) as Ho2 by assumption.
  assert (messages w2 = messages w) as Hm2 by apply Ho2.
  rewrite (bind_ok _ _ _ _ _ (get_all_namespaces_present w2
                                 ltac:(by rewrite Hm2))).
  rewrite (bind_ok _ _ _ _ _ (load_hashes_ok w2)).
  assert (ledger w2 = ledger w) as -> by (unfold ledger; by rewrite Hm2).
  cbn [for_each].
  destruct (process_namespace_absent env client (configured_default w)
              (upper (configured_default w)) (loc0 :: locs)
              (ledger w, 0%nat, 0%nat) "messages" w2 ltac:(by rewrite Hm2))
    as (w3 & Hp & Ho3).
  unfold bind at 1. unfold bind at 1. rewrite Hp. cbn [ret].
  assert (only_prints w w3) as (Hr3 & Hm3 & Ha3 & Hop3) by (by etrans).
  repeat match goal with H : only_prints _ _ |- _ => clear H end.
  unfold save_hashes.
  rewrite (bind_ok _ _ _ _ _ (json_dump_eq HASHES_FILE (ledger w) w3)).
  do 3 step_only. last_only. absorb_only.
  match goal with
  | H : only_prints _ w7 |- _ =>
      exists w7; split; [done|]; destruct H as (Hr7 & Hm7 & Ha7 & Hop7)
  end.
  cbn in Hr7, Hm7, Ha7, Hop7.
  repeat split; congruence.
Qed.

Lemma run_without_source_catalogue_witness :
  deepl_installed (sample_env bracket_service) = true
  ∧ truthy_opt (DEEPL_API_KEY (sample_env bracket_service)) = true
  ∧ (∃ w', script (sample_env bracket_service)
             (sample_world (Some "locales: ['de', 'en'], defaultLocale: 'en'")
                [("de.json", Parsed [("title", JStr "Hallo")])])
           = (Ok tt, w')
           ∧ messages w' !! HASHES_FILE = Some (Parsed [])
           ∧ api_calls w' = []).
Proof.
  split; [reflexivity|]. split; [reflexivity|].
  destruct (run_without_source_catalogue (sample_env bracket_service)
              (sample_world (Some "locales: ['de', 'en'], defaultLocale: 'en'")
                 [("de.json", Parsed [("title", JStr "Hallo")])])
              "locales: ['de', 'en'], defaultLocale: 'en'" "'de', 'en'")
    as (w' & Hrun & _ & Hm & Ha & _).
  - reflexivity.
  - reflexivity.
  - reflexivity.
  - reflexivity.
  - vm_compute. discriminate.
  - vm_compute. by eexists.
  - vm_compute. reflexivity.
  - exists w'. split; [exact Hrun|]. split; [|exact Ha].
    rewrite Hm. apply lookup_insert_eq.
Defined.

(** ** What [translate_locale] does to one target *)

(** X19.  A target locale that has no entry in [DEEPL_LANG_CODES] is
    skipped: its catalogue is neither read nor written, no request is sent
    and the counter of translations keeps its value. *)
Theorem unsupported_locale_is_skipped env client source_lang_code src_keys
    hashes changed_keys total target_locale w :
  dict_get target_locale DEEPL_LANG_CODES = None →
  ∃ w',
    translate_locale env client source_lang_code src_keys hashes changed_keys
      total target_locale w = (Ok total, w')
    ∧ only_prints w w'.
Proof.
  intros Hnone. unfold translate_locale. rewrite Hnone. cbn [truthy_opt negb].
  step_only. by exists w0.
Qed.

Lemma unsupported_locale_is_skipped_witness :
  dict_get "de" DEEPL_LANG_CODES = None
  ∧ ∃ w',
      translate_locale (sample_env bracket_service) sample_client "EN"
        [("title", "Hello")] [] 0%nat 3%nat "de"
        (sample_world None [("de.json", Parsed [("title", JStr "Hallo")])])
      = (Ok 3%nat, w')
      ∧ only_prints
          (sample_world None [("de.json", Parsed [("title", JStr "Hallo")])]) w'.
Proof.
  split; [reflexivity|].
  apply (unsupported_locale_is_skipped (sample_env bracket_service)
           sample_client "EN" [("title", "Hello")] [] 0%nat 3%nat "de"
           (sample_world None [("de.json", Parsed [("title", JStr "Hallo")])])).
  reflexivity.
Defined.




(** ** The files a run leaves as they are *)

#[local] Instance changes_only_preorder allowed : PreOrder (changes_only allowed).
Proof.
  split.
  - intros w. by split.
  - intros a b c [Hr1 Hm1] [Hr2 Hm2]. split; [congruence|].
    intros name Hname. by rewrite Hm2, Hm1.
Qed.

Lemma quiet_changes_only allowed w w' : quiet w w' → changes_only allowed w w'.
Proof. intros (Hr & Hm & _). split; [done|]. intros name _. by rewrite Hm. Qed.

Lemma changes_only_mono (P Q : string → Prop) w w' :
  (∀ n, P n → Q n) → changes_only P w w' → changes_only Q w w'.
Proof.
  intros HPQ [Hr Hm]. split; [done|]. intros name Hname.
  apply Hm. intros HP. by apply Hname, HPQ.
Qed.

Lemma json_dump_changes name data w :
  ∃ w', json_dump name data w = (Ok tt, w')
        ∧ changes_only (fun n => n = name) w w'.
Proof.
  eexists. split; [apply json_dump_eq|]. split; [done|].
  intros n Hn. cbn. apply lookup_insert_ne. by intros ->.
Qed.

Lemma translate_locale_changes env client source_lang_code src_keys hashes
    changed_keys total target_locale w :
  ∃ total' w',
    translate_locale env client source_lang_code src_keys hashes changed_keys
      total target_locale w = (Ok total', w')
    ∧ changes_only (fun n => n = locale_json target_locale) w w'.
Proof.
  unfold translate_locale.
  destruct (negb (truthy_opt (dict_get target_locale DEEPL_LANG_CODES))).
  { step_print. eexists _, _. split; [done|]. by apply quiet_changes_only. }
  destruct (load_target_ok (locale_json target_locale) w) as (target_data & Hl).
  rewrite (bind_ok _ _ _ _ _ Hl).
  destruct (find_missing_or_changed src_keys target_data hashes)
    as [|entry batch] eqn:Hbatch.
  { step_print. eexists _, _. split; [done|]. by apply quiet_changes_only. }
  step_print.
  assert (∃ w1, (if bool_decide (0 < changed_keys)%nat
                 then print (" (including " +:+ pretty changed_keys +:+ " changed)")
                 else print EmptyString) w0 = (Ok tt, w1) ∧ quiet w0 w1)
    as (w1 & Hp1 & Hq1) by (destruct (bool_decide _); apply print_ok).
  rewrite (bind_ok _ _ _ _ _ Hp1).
  match goal with
  | |- context [bind (for_each ?b ?f ?s) _ w1] =>
      destruct (translate_batch_ok env client
                  (default EmptyString (dict_get target_locale DEEPL_LANG_CODES))
                  source_lang_code b s w1) as (st' & w2 & Hrun & Hq2)
  end.
  rewrite (bind_ok _ _ _ _ _ Hrun).
  destruct (json_dump_changes (locale_json target_locale) st'.1 w2)
    as (w3 & Hd & Hc3).
  rewrite (bind_ok _ _ _ _ _ Hd).
  step_print.
  eexists _, _. split; [done|].
  etrans; [apply quiet_changes_only; exact Hq|].
  etrans; [apply quiet_changes_only; exact Hq1|].
  etrans; [apply quiet_changes_only; exact Hq2|].
  etrans; [exact Hc3|]. by apply quiet_changes_only.
Qed.

Lemma process_namespace_changes env client default_locale source_lang_code
    target_locales state ns w :
  ∃ r w',
    process_namespace env client default_locale source_lang_code
      target_locales state ns w = (r, w')
    ∧ changes_only
        (fun n => ∃ loc, loc ∈ target_locales ∧ n = locale_json loc) w w'.
Proof.
  destruct state as [[hashes total] changed_keys]. unfold process_namespace.
  rewrite (bind_ok _ _ _ _ _ (file_exists_eq _ w)).
  destruct (bool_decide _); cbn [negb].
  2:{ step_print. eexists _, _. split; [done|]. by apply quiet_changes_only. }
  destruct (json_load (locale_json default_locale) w) as [[src_data|c|e] w0]
    eqn:Hload.
  2,3: unfold bind at 1; rewrite Hload; eexists _, _; split; [done|];
       unfold json_load in Hload;
       destruct (messages w !! locale_json default_locale) as [[?|]|];
       injection Hload as _ <-; reflexivity.
  assert (w0 = w) as ->.
  { unfold json_load in Hload.
    destruct (messages w !! locale_json default_locale) as [[?|]|];
      by injection Hload. }
  rewrite (bind_ok _ _ _ _ _ Hload).
  do 2 step_print. absorb.
  destruct (for_each_ok quiet hashes_grow
              (collect_all_keys src_data EmptyString) check_changed)
    with (s := (hashes, changed_keys)) (w := w1)
    as ([hashes' changed_keys'] & w2 & Hrun & Hq2 & _).
  { intros [h n] item w' _.
    destruct (check_changed_ok h n item w') as (h' & n' & w'' & Hc & Hq' & Hg).
    by exists (h', n'), w''. }
  rewrite (bind_ok _ _ _ _ _ Hrun). absorb.
  destruct (for_each_ok
              (changes_only
                 (fun n => ∃ loc, loc ∈ target_locales ∧ n = locale_json loc))
              (fun _ _ : nat => True) target_locales
              (translate_locale env client source_lang_code
                 (collect_all_keys src_data EmptyString) hashes' changed_keys'))
    with (s := total) (w := w2)
    as (total' & w3 & Hloop & Hc3 & _).
  { intros t loc w' Hloc.
    destruct (translate_locale_changes env client source_lang_code
                (collect_all_keys src_data EmptyString) hashes' changed_keys'
                t loc w') as (t' & w'' & Ht & Hc).
    exists t', w''. split; [done|]. split; [|done].
    eapply changes_only_mono; [|exact Hc]. intros n ->. by exists loc. }
  rewrite (bind_ok _ _ _ _ _ Hloop). step_print.
  eexists _, _. split; [done|].
  etrans; [apply quiet_changes_only; eassumption|].
  etrans; [exact Hc3|]. by apply quiet_changes_only.
Qed.

Lemma main_changes env client w :
  ∃ r w', main env client w = (r, w') ∧ changes_only (allowed_write w) w w'.
Proof.
  unfold main. step_print.
  destruct (routing_ts w) as [content|] eqn:Hrouting.
  2:{ destruct (get_locales_absent w0) as (w1 & Hg & Hq1 & _).
      { destruct Hq as (-> & _). done. }
      unfold bind at 1. rewrite Hg. absorb.
      eexists _, w1. split; [done|]. by apply quiet_changes_only. }
  assert (routing_ts w0 = Some content) as Hrouting0
    by (destruct Hq as (-> & _); done).
  destruct (search_locales content) as [locales_str|] eqn:Hsearch.
  2:{ destruct (get_locales_no_array w0 content Hrouting0 Hsearch)
        as (w1 & Hg & Hq1 & _).
      unfold bind at 1. rewrite Hg. absorb.
      eexists _, w1. split; [done|]. by apply quiet_changes_only. }
  rewrite (bind_ok _ _ _ _ _ (get_locales_found w0 content locales_str
                                 Hrouting0 Hsearch)).
  rewrite (bind_ok _ _ _ _ _ (get_default_locale_ok w0 content Hrouting0)).
  rewrite (quiet_configured_default _ _ Hq).
  do 2 step_print. absorb.
  destruct (filter (fun loc => loc ≠ configured_default w)
              (findall_codes locales_str)) as [|loc0 locs] eqn:Htargets.
  { last_print. absorb. eexists _, w3. split; [done|].
    by apply quiet_changes_only. }
  rewrite <- Htargets. do 2 step_print. absorb.
  destruct (get_all_namespaces_ok w4) as (namespaces & w5 & Hns & Hq5 & Hcases).
  rewrite (bind_ok _ _ _ _ _ Hns). absorb.
  destruct Hcases as [->| ->].
  { last_print. absorb. eexists _, w6. split; [done|].
    by apply quiet_changes_only. }
  rewrite (bind_ok _ _ _ _ _ (load_hashes_ok w5)).
  assert (quiet w w5) as Hqw by assumption.
  cbn [for_each].
  destruct (process_namespace_changes env client (configured_default w)
              (upper (configured_default w))
              (filter (fun loc => loc ≠ configured_default w)
                 (findall_codes locales_str))
              (ledger w5, 0%nat, 0%nat) "messages" w5)
    as (r & w6 & Hrun & Hc6).
  assert (changes_only (allowed_write w) w w6) as Hw6.
  { etrans; [apply quiet_changes_only; exact Hqw|].
    eapply changes_only_mono; [|exact Hc6].
    intros n (loc & Hloc & ->). right. exists loc.
    apply list_elem_of_filter in Hloc as [Hne Hin].
    split; [done|]. split; [done|]. by exists content, locales_str. }
  unfold bind at 1. unfold bind at 1. rewrite Hrun.
  destruct r as [[[hashes' total'] changed']|c|e];
    [|by eexists _, w6|by eexists _, w6].
  cbn [ret]. unfold save_hashes.
  destruct (json_dump_changes HASHES_FILE hashes' w6) as (w7 & Hd & Hc7).
  rewrite (bind_ok _ _ _ _ _ Hd).
  repeat match goal with H : quiet _ _ |- _ => clear H end.
  do 3 step_print. last_print. absorb.
  eexists _, w11. split; [done|].
  etrans; [exact Hw6|]. etrans.
  - eapply changes_only_mono; [|exact Hc7]. intros n ->. by left.
  - apply quiet_changes_only. assumption.
Qed.

(** X21.  A run changes no file other than the ledger and the catalogues of
    the listed locales that differ from the default one: the routing file,
    the catalogue of the default locale and every other file of
    [src/messages] hold after the run, however it ends, what they held
    before. *)
Theorem run_keeps_other_files env w :
  routing_ts (script env w).2 = routing_ts w
  ∧ messages (script env w).2 !! locale_json (configured_default w)
    = messages w !! locale_json (configured_default w)
  ∧ ∀ name, ¬ allowed_write w name →
            messages (script env w).2 !! name = messages w !! name.
Proof.
  assert (changes_only (allowed_write w) w (script env w).2) as [Hr Hm].
  { unfold script.
    destruct (deepl_installed env); cbn [negb].
    2:{ do 2 step_print. absorb.
        unfold sys_exit. cbn [snd]. by apply quiet_changes_only. }
    destruct (truthy_opt (DEEPL_API_KEY env)); cbn [negb].
    2:{ do 2 step_print. absorb.
        unfold sys_exit. cbn [snd]. by apply quiet_changes_only. }
    match goal with
    | |- context [main env ?client w] =>
        destruct (main_changes env client w) as (r & w' & -> & Hc)
    end.
    exact Hc. }
  split; [done|]. split; [|done].
  apply Hm. intros Hallowed. by apply (allowed_write_not_source w _ Hallowed).
Qed.

(** ** Lookups below a leaf *)

Lemma descend_app p q c :
  descend (p ++ q) c = descend p c ≫= descend q.
Proof.
  revert c. induction p as [|k p IH]; intros c; [done|].
  cbn [app descend]. destruct c as [s|d]; [done|].
  destruct (dict_get k d); [apply IH|done].
Qed.

(** X22.  [get_nested_value] does not look into strings: when a key path
    leads to a string leaf, every longer key path that continues it with a
    dot yields no value, so such a key counts as missing in the target. *)
Theorem lookup_below_leaf obj path s rest :
  get_nested_value obj path = Some (JStr s) →
  get_nested_value obj (path +:+ "." +:+ rest) = None.
Proof.
  unfold get_nested_value. intros Hleaf.
  rewrite split_dot_app, descend_app, Hleaf. cbn.
  apply descend_leaf, split_dot_nonempty.
Qed.

Lemma lookup_below_leaf_witness :
  get_nested_value [("nav", JStr "Navigation")] "nav" = Some (JStr "Navigation")
  ∧ get_nested_value [("nav", JStr "Navigation")] ("nav" +:+ "." +:+ "home")
    = None.
Proof.
  split; [reflexivity|].
  apply (lookup_below_leaf [("nav", JStr "Navigation")] "nav" "Navigation" "home").
  reflexivity.
Defined.

(** ** The ledger a completed run saves *)




